(** * A shallow embedding of svg_renderer (parser.py, style.py, renderer.py,
    layer.py, api.py) and the properties of its specification.

    Python floats are Rocq's primitive binary64 floats; Python ints are [Z];
    Python strings are ASCII strings; Python dicts are association lists
    kept in insertion order; raised exceptions are the [Err] branch of
    [result]. *)

From Stdlib Require Import ZArith List Bool Ascii String Lia.
From Stdlib Require Import Floats.
Set Warnings "-inexact-float -register-all".
Import ListNotations.
Open Scope Z_scope.

(** ** Python runtime fragments *)

Module Py.

(** Exceptions raised by the code paths modelled here. *)
Inductive exn :=
| ValueError (msg : string)
| TypeError (msg : string)
| IndexError (index : nat)
| OverflowError
| XPathEvalError.

Inductive result (A : Type) :=
| Ok (a : A)
| Err (e : exn).
Arguments Ok {A} a.
Arguments Err {A} e.

Definition bind {A B} (r : result A) (k : A -> result B) : result B :=
  match r with Ok a => k a | Err e => Err e end.

Notation "'let*' x := r 'in' k" := (bind r (fun x => k))
  (at level 200, x pattern, r at level 100, k at level 200).

(** Characters removed by [str.strip()] / separating [str.split()]
    (the ASCII part of Python's whitespace). *)
Definition is_space (c : ascii) : bool :=
  let n := nat_of_ascii c in
  (n =? 32)%nat || ((9 <=? n)%nat && (n <=? 13)%nat)
  || ((28 <=? n)%nat && (n <=? 31)%nat).

Fixpoint lstrip (l : list ascii) : list ascii :=
  match l with
  | c :: r => if is_space c then lstrip r else l
  | [] => []
  end.

(** [s.strip()] *)
Definition strip (l : list ascii) : list ascii := rev (lstrip (rev (lstrip l))).

(** [s.rstrip()] *)
Definition rstrip (l : list ascii) : list ascii := rev (lstrip (rev l)).

(** [s.endswith(suf)] *)
Definition endswith (l suf : list ascii) : bool :=
  let n := List.length l in
  let k := List.length suf in
  (k <=? n)%nat && (if list_eq_dec ascii_dec (skipn (n - k) l) suf then true else false).

(** [s[:-k]] for [k > 0] and [k <= len(s)] *)
Definition drop_last (k : nat) (l : list ascii) : list ascii := firstn (List.length l - k) l.

(** [s.lower()] on ASCII *)
Definition lower_char (c : ascii) : ascii :=
  let n := nat_of_ascii c in
  if ((65 <=? n)%nat && (n <=? 90)%nat) then ascii_of_nat (n + 32) else c.
Definition lower (l : list ascii) : list ascii := map lower_char l.

Definition chars (s : string) : list ascii := list_ascii_of_string s.
Definition str (l : list ascii) : string := string_of_list_ascii l.

(** [s.split()] with no argument: runs of whitespace separate, empty
    fields are dropped. *)
Fixpoint split_ws_aux (l : list ascii) (cur : list ascii) : list (list ascii) :=
  match l with
  | [] => match cur with [] => [] | _ => [rev cur] end
  | c :: r =>
      if is_space c then
        match cur with
        | [] => split_ws_aux r []
        | _ => rev cur :: split_ws_aux r []
        end
      else split_ws_aux r (c :: cur)
  end.
Definition split_ws (l : list ascii) : list (list ascii) := split_ws_aux l [].

(** [s.split(sep)] for a one-character separator: keeps empty fields. *)
Fixpoint split_on_aux (sep : ascii) (l : list ascii) (cur : list ascii)
  : list (list ascii) :=
  match l with
  | [] => [rev cur]
  | c :: r =>
      if ascii_dec c sep then rev cur :: split_on_aux sep r []
      else split_on_aux sep r (c :: cur)
  end.
Definition split_on (sep : ascii) (l : list ascii) : list (list ascii) :=
  split_on_aux sep l [].

(** *** Floats *)

Definition digit_val (c : ascii) : option Z :=
  let n := nat_of_ascii c in
  if ((48 <=? n)%nat && (n <=? 57)%nat) then Some (Z.of_nat n - 48) else None.

Definition is_digit (c : ascii) : bool :=
  match digit_val c with Some _ => true | None => false end.

(** Conversion of an exact integer to the nearest binary64 (ties to even):
    [float(n)] for a Python int [n], as long as it is in range. *)
Definition float_of_Z (z : Z) : float :=
  SF2Prim (binary_normalize prec emax z 0 false).

(** Correctly rounded binary64 value of [(-1)^neg * m * 10^e10], as
    [float()] computes it from a decimal literal.  For negative [e10] the
    quotient is computed with at least 60 extra bits and a sticky bit, which
    makes the single rounding of [binary_normalize] the correct one; below
    [2^-1080] the value rounds to zero, above [10^400] to infinity. *)
Definition decimal_to_float (neg : bool) (m e10 : Z) : float :=
  let sgn z := if neg then Z.opp z else z in
  if m =? 0 then (if neg then (-0)%float else 0%float)
  else if 0 <=? e10 then
    if 400 <? e10 then (if neg then neg_infinity else infinity)
    else SF2Prim (binary_normalize prec emax (sgn (m * 10 ^ e10)) 0 neg)
  else
    let k := - e10 in
    if Z.log2 m + 1 + 1080 <? 3 * k
    then (if neg then (-0)%float else 0%float)
    else
      let s := 60 + 4 * k in
      let '(d, r) := Z.div_eucl (m * 2 ^ s) (10 ^ k) in
      let mant := if r =? 0 then 2 * d else 2 * d + 1 in
      SF2Prim (binary_normalize prec emax (sgn mant) (- s - 1) neg).

(** Digits of a Python [digitpart] ([digit (["_"] digit)*]), most recent
    digit first, and the remaining input. *)
Fixpoint digitpart_aux (l : list ascii) (acc : list Z) : list Z * list ascii :=
  match l with
  | c :: r =>
      match digit_val c with
      | Some d => digitpart_aux r (d :: acc)
      | None =>
          if ascii_dec c "_" then
            match r with
            | c' :: r' =>
                match digit_val c' with
                | Some d => digitpart_aux r' (d :: acc)
                | None => (acc, l)
                end
            | [] => (acc, l)
            end
          else (acc, l)
      end
  | [] => (acc, l)
  end.

Definition digitpart (l : list ascii) : option (list Z * list ascii) :=
  match l with
  | c :: r => match digit_val c with Some d => Some (digitpart_aux r [d]) | None => None end
  | [] => None
  end.

(** Value of a digit list given least significant digit first. *)
Definition digits_value (ds : list Z) : Z := fold_right (fun d acc => d + 10 * acc) 0 ds.

(** The mantissa of a decimal literal: [digitpart ["." [digitpart]]] or
    ["." digitpart]; returns the integer mantissa, the power of ten and the
    rest of the input. *)
Definition parse_mantissa (l : list ascii) : option (Z * Z * list ascii) :=
  match digitpart l with
  | Some (ip, r) =>
      match r with
      | c :: r' =>
          if ascii_dec c "." then
            match digitpart r' with
            | Some (fp, r'') =>
                Some (digits_value (fp ++ ip), - Z.of_nat (List.length fp), r'')
            | None => Some (digits_value ip, 0, r')
            end
          else Some (digits_value ip, 0, r)
      | [] => Some (digits_value ip, 0, r)
      end
  | None =>
      match l with
      | c :: r' =>
          if ascii_dec c "." then
            match digitpart r' with
            | Some (fp, r'') => Some (digits_value fp, - Z.of_nat (List.length fp), r'')
            | None => None
            end
          else None
      | [] => None
      end
  end.

Definition parse_sign (l : list ascii) : bool * list ascii :=
  match l with
  | c :: r =>
      if ascii_dec c "-" then (true, r)
      else if ascii_dec c "+" then (false, r)
      else (false, l)
  | [] => (false, l)
  end.

(** The exponent part [("e"|"E") [sign] digitpart], which must end the input. *)
Definition parse_exponent (l : list ascii) : option Z :=
  match l with
  | [] => Some 0
  | c :: r =>
      if ascii_dec (lower_char c) "e" then
        let '(neg, r') := parse_sign r in
        match digitpart r' with
        | Some (ds, []) => Some (if neg then - digits_value ds else digits_value ds)
        | _ => None
        end
      else None
  end.

(** [float(s)] for a [str] argument: surrounding whitespace, a sign,
    [inf], [infinity] and [nan] in any case, and decimal literals with
    optional fraction, exponent and digit-group underscores; [None] is the
    [ValueError]. *)
Definition py_float (s : list ascii) : option float :=
  let '(neg, body) := parse_sign (strip s) in
  let low := lower body in
  if list_eq_dec ascii_dec low (chars "inf") then
    Some (if neg then neg_infinity else infinity)
  else if list_eq_dec ascii_dec low (chars "infinity") then
    Some (if neg then neg_infinity else infinity)
  else if list_eq_dec ascii_dec low (chars "nan") then Some nan
  else
    match parse_mantissa body with
    | Some (m, e, rest) =>
        match parse_exponent rest with
        | Some x => Some (decimal_to_float neg m (e + x))
        | None => None
        end
    | None => None
    end.

(** [float(s)] raising the interpreter's [ValueError]. *)
Definition float_of_str (s : list ascii) : result float :=
  match py_float s with
  | Some f => Ok f
  | None => Err (ValueError ("could not convert string to float: " ++ str s))
  end.

(** Exact value of a finite float as [num * 2^e]. *)
Definition round_half_even_pos (m : Z) (e : Z) : Z :=
  if 0 <=? e then m * 2 ^ e
  else
    let d := 2 ^ (- e) in
    let q := m / d in
    let r := m mod d in
    let half := 2 ^ (- e - 1) in
    if half <? r then q + 1
    else if r <? half then q
    else if Z.even q then q else q + 1.

(** [round(x)] for a float [x]: the nearest integer, ties to even. *)
Definition py_round (f : float) : result Z :=
  match Prim2SF f with
  | S754_zero _ => Ok 0
  | S754_infinity _ => Err OverflowError
  | S754_nan => Err (ValueError "cannot convert float NaN to integer")
  | S754_finite s m e =>
      let n := round_half_even_pos (Zpos m) e in
      Ok (if s then - n else n)
  end.

(** [int(x)] for a float [x]: truncation toward zero. *)
Definition py_int (f : float) : result Z :=
  match Prim2SF f with
  | S754_zero _ => Ok 0
  | S754_infinity _ => Err OverflowError
  | S754_nan => Err (ValueError "cannot convert float NaN to integer")
  | S754_finite s m e =>
      let n := if 0 <=? e then Zpos m * 2 ^ e else Zpos m / 2 ^ (- e) in
      Ok (if s then - n else n)
  end.

End Py.

Import Py.

(** ** XML elements (the lxml tree is an external collaborator): an element
    is its attribute list; [element.get(k)] is the first binding of [k]. *)
Module Xml.

Definition element := list (string * string).

Fixpoint get (e : element) (k : string) : option string :=
  match e with
  | [] => None
  | (k', v) :: r => if String.eqb k k' then Some v else get r k
  end.

(** [element.get(k, default)] *)
Definition get_default (e : element) (k : string) (d : string) : string :=
  match get e k with Some v => v | None => d end.

End Xml.

(** ** parser.py: SVGParser *)
Module SVGParser.
Import Xml.
Local Open Scope float_scope.

Definition viewbox := (float * float * float * float)%type.

(** [_parse_dimension]: strip the first matching unit suffix, then [float]. *)
Fixpoint strip_unit (units : list string) (v : list ascii) : list ascii :=
  match units with
  | [] => v
  | u :: us =>
      if endswith v (chars u) then drop_last (String.length u) v
      else strip_unit us v
  end.

Definition dimension_units : list string :=
  ["px"; "pt"; "mm"; "cm"; "in"; "pc"; "em"; "ex"; "%"]%string.

Definition _parse_dimension (value : string) : result float :=
  let v := strip_unit dimension_units (chars value) in
  match py_float v with
  | Some f => Ok f
  | None => Err (ValueError ("Cannot parse dimension: " ++ str v))
  end.

(** [map(float, parts)] unpacked into four names. *)
Definition floats4 (parts : list (list ascii)) : option viewbox :=
  match parts with
  | [a; b; c; d] =>
      match py_float a, py_float b, py_float c, py_float d with
      | Some x, Some y, Some w, Some h => Some (x, y, w, h)
      | _, _, _, _ => None
      end
  | _ => None
  end.

Definition nonempty (s : string) : bool :=
  match s with EmptyString => false | _ => true end.

(** [get_viewbox] on the loaded root element. *)
Definition get_viewbox (root : element) : result viewbox :=
  let viewbox_str := get root "viewBox" in
  match viewbox_str with
  | Some vb_s =>
      if nonempty vb_s then
        match floats4 (split_ws (chars vb_s)) with
        | Some vb => Ok vb
        | None => Err (ValueError ("Invalid viewBox values: " ++ vb_s))
        end
      else
        (* [not viewbox_str]: width/height fallback *)
        match get root "width", get root "height" with
        | Some w, Some h =>
            if nonempty w && nonempty h then
              let* wf := _parse_dimension w in
              let* hf := _parse_dimension h in
              Ok (0.0, 0.0, wf, hf)
            else Err (ValueError "No viewBox attribute found and no width/height fallback available")
        | _, _ => Err (ValueError "No viewBox attribute found and no width/height fallback available")
        end
  | None =>
      match get root "width", get root "height" with
      | Some w, Some h =>
          if nonempty w && nonempty h then
            let* wf := _parse_dimension w in
            let* hf := _parse_dimension h in
            Ok (0.0, 0.0, wf, hf)
          else Err (ValueError "No viewBox attribute found and no width/height fallback available")
      | _, _ => Err (ValueError "No viewBox attribute found and no width/height fallback available")
      end
  end.

(** [get_document_unit] *)
Fixpoint first_suffix (units : list string) (w : list ascii) : string :=
  match units with
  | [] => "px"%string
  | u :: us => if endswith w (chars u) then u else first_suffix us w
  end.

Definition get_document_unit (root : element) : string :=
  let width_str := get_default root "width" EmptyString in
  first_suffix ["mm"; "cm"; "in"; "pt"; "pc"]%string (chars width_str).

(** The [unit_to_inches] table of [calculate_pixel_size]. *)
Definition unit_to_inches (unit : string) : option float :=
  if String.eqb unit "px" then Some (1.0 / 96.0)
  else if String.eqb unit "pt" then Some (1.0 / 72.0)
  else if String.eqb unit "pc" then Some (1.0 / 6.0)
  else if String.eqb unit "mm" then Some (1.0 / 25.4)
  else if String.eqb unit "cm" then Some (1.0 / 2.54)
  else if String.eqb unit "in" then Some 1.0
  else None.

(** [unit_to_inches.get(unit, 1.0 / 96.0)] *)
Definition inches_per_unit (unit : string) : float :=
  match unit_to_inches unit with Some f => f | None => 1.0 / 96.0 end.

(** [calculate_pixel_size(dpi)] *)
Definition calculate_pixel_size (root : element) (dpi : float) : result (Z * Z) :=
  let* (_, _, vb_width, vb_height) := get_viewbox root in
  let unit := get_document_unit root in
  let ipu := inches_per_unit unit in
  let* width_px := py_round (vb_width * ipu * dpi) in
  let* height_px := py_round (vb_height * ipu * dpi) in
  Ok (width_px, height_px).

(** [calculate_scale(dpi)]: [pixel_width / vb_width] converts the int to a
    float first. *)
Definition calculate_scale (root : element) (dpi : float) : result float :=
  let* (_, _, vb_width, _) := get_viewbox root in
  let* (pixel_width, _) := calculate_pixel_size root dpi in
  if vb_width =? 0.0 then Ok 1.0
  else Ok (float_of_Z pixel_width / vb_width).

(** *** [_extract_namespaces()]

    A namespace map of lxml: prefixes are [None] (the default namespace)
    or names; as a Python dict, in insertion order. *)
Definition nsdict := list (option string * string).

Definition prefix_eqb (a b : option string) : bool :=
  match a, b with
  | Some x, Some y => String.eqb x y
  | None, None => true
  | _, _ => false
  end.

Fixpoint ns_get (d : nsdict) (k : option string) : option string :=
  match d with
  | [] => None
  | (k', v) :: r => if prefix_eqb k k' then Some v else ns_get r k
  end.

(** [d[k] = v] *)
Fixpoint ns_set (d : nsdict) (k : option string) (v : string) : nsdict :=
  match d with
  | [] => [(k, v)]
  | (k', v') :: r => if prefix_eqb k k' then (k', v) :: r else (k', v') :: ns_set r k v
  end.

(** [del d[k]] *)
Fixpoint ns_del (d : nsdict) (k : option string) : nsdict :=
  match d with
  | [] => []
  | (k', v') :: r => if prefix_eqb k k' then r else (k', v') :: ns_del r k
  end.

(** [d.update(u)] *)
Definition ns_update (d u : nsdict) : nsdict :=
  fold_left (fun acc kv => ns_set acc (fst kv) (snd kv)) u d.

Definition NAMESPACES : nsdict :=
  [(Some "svg", "http://www.w3.org/2000/svg");
   (Some "inkscape", "http://www.inkscape.org/namespaces/inkscape");
   (Some "sodipodi", "http://sodipodi.sourceforge.net/DTD/sodipodi-0.dtd")]%string.

(** [_extract_namespaces()]; [root_nsmap] is [None] when no root is loaded
    and [Some root.nsmap] otherwise (an empty nsmap is the empty dict). *)
Definition _extract_namespaces (root_nsmap : option nsdict) : nsdict :=
  match root_nsmap with
  | None => []
  | Some ns_map =>
      let result := ns_update NAMESPACES ns_map in
      match ns_get result None with
      | Some default => ns_del (ns_set result (Some "svg"%string) default) None
      | None => result
      end
  end.

End SVGParser.

(** ** renderer.py: Renderer *)
Module Renderer.
Local Open Scope float_scope.

(** Arguments of a Python call, as far as [Renderer(...)] receives them. *)
Inductive pyval := PInt (z : Z) | PFloat (f : float).

(** A Cairo path primitive issued on the context. *)
Inductive prim :=
| MoveTo (x y : float)
| LineTo (x y : float)
| CurveTo (x1 y1 x2 y2 x y : float)
| ClosePath.

Record Renderer := mkRenderer {
  width : pyval;
  height : pyval;
  surface_ready : bool;
}.

(** [Renderer(args...)]: [__init__(self, width, height)] takes exactly two
    arguments besides [self]; any other count raises [TypeError]. *)
Definition Renderer_new (args : list pyval) : result Renderer :=
  match args with
  | [w; h] => Ok (mkRenderer w h false)
  | _ => Err (TypeError "Renderer.__init__() takes 3 positional arguments")
  end.

(** *** Tokenizer: [re.findall(r'[MmLlCcZz]|[-+]?[0-9]*\.?[0-9]+(?:[eE][-+]?[0-9]+)?', d)] *)

Definition is_cmd_letter (c : ascii) : bool :=
  existsb (fun c' => if ascii_dec c c' then true else false) (chars "MmLlCcZz").

Fixpoint span_digits (l : list ascii) : list ascii * list ascii :=
  match l with
  | c :: r => if is_digit c then let '(d, r') := span_digits r in (c :: d, r') else ([], l)
  | [] => ([], [])
  end.

(** [[0-9]*\.?[0-9]+], with the regex engine's backtracking resolved:
    digits, then a dot only if a digit follows it. *)
Definition match_unsigned (l : list ascii) : option (list ascii * list ascii) :=
  let '(d1, r1) := span_digits l in
  match r1 with
  | c :: (c' :: _) as r2 =>
      if Ascii.eqb c "." && is_digit c' then
        let '(d2, r3) := span_digits r2 in Some (d1 ++ c :: d2, r3)
      else match d1 with [] => None | _ => Some (d1, r1) end
  | _ => match d1 with [] => None | _ => Some (d1, r1) end
  end.

(** [(?:[eE][-+]?[0-9]+)?] *)
Definition match_exponent (l : list ascii) : list ascii * list ascii :=
  match l with
  | e :: r =>
      if Ascii.eqb e "e" || Ascii.eqb e "E" then
        let '(sg, r') :=
          match r with
          | c :: r'' => if Ascii.eqb c "-" || Ascii.eqb c "+" then ([c], r'') else ([], r)
          | [] => ([], r)
          end in
        match span_digits r' with
        | ([], _) => ([], l)
        | (ds, r'') => (e :: sg ++ ds, r'')
        end
      else ([], l)
  | [] => ([], l)
  end.

Definition match_number (l : list ascii) : option (list ascii * list ascii) :=
  let '(sg, r0) :=
    match l with
    | c :: r => if Ascii.eqb c "-" || Ascii.eqb c "+" then ([c], r) else ([], l)
    | [] => ([], l)
    end in
  match match_unsigned r0 with
  | Some (m, r1) => let '(ex, r2) := match_exponent r1 in Some (sg ++ m ++ ex, r2)
  | None => None
  end.

(** The regex at one position: the letter alternative first. *)
Definition match_token (l : list ascii) : option (list ascii * list ascii) :=
  match l with
  | c :: r => if is_cmd_letter c then Some ([c], r) else match_number l
  | [] => None
  end.

(** [findall]: on no match the scan advances one character.  Every match
    is non-empty, so [length d] rounds of scanning suffice. *)
Fixpoint findall (fuel : nat) (l : list ascii) : list (list ascii) :=
  match fuel with
  | O => []
  | Datatypes.S f =>
      match l with
      | [] => []
      | _ :: r =>
          match match_token l with
          | Some (tok, rest) => tok :: findall f rest
          | None => findall f r
          end
      end
  end.

Definition tokenize (path_data : string) : list (list ascii) :=
  findall (String.length path_data) (chars path_data).

(** *** [_parse_path_data] *)

Fixpoint is_prefix (p l : list ascii) : bool :=
  match p, l with
  | [], _ => true
  | c :: p', c' :: l' => Ascii.eqb c c' && is_prefix p' l'
  | _ :: _, [] => false
  end.

(** [needle in hay] for two [str]s: substring test. *)
Fixpoint py_in (needle hay : list ascii) : bool :=
  is_prefix needle hay || match hay with [] => false | _ :: r => py_in needle r end.

Definition is_cmd (c : option (list ascii)) (letter : string) : bool :=
  match c with
  | Some t => if list_eq_dec ascii_dec t (chars letter) then true else false
  | None => false
  end.

(** The loop variables of [_parse_path_data], with the path issued so far
    on the Cairo context. *)
Record cursor := mkCursor {
  i : nat;
  current_x : float;
  current_y : float;
  current_command : option (list ascii);
  emitted : list prim;
}.

Definition cursor0 : cursor := mkCursor 0 0.0 0.0 None [].

(** [tokens[k]] *)
Definition index (tokens : list (list ascii)) (k : nat) : result (list ascii) :=
  match nth_error tokens k with
  | Some t => Ok t
  | None => Err (IndexError k)
  end.

(** [float(tokens[k])] *)
Definition float_at (tokens : list (list ascii)) (k : nat) : result float :=
  let* t := index tokens k in float_of_str t.

(** One iteration of the [while] loop body on [token = tokens[i]]. *)
Definition step (tokens : list (list ascii)) (st : cursor) (token : list ascii)
  : result cursor :=
  let '(mkCursor i cx cy cmd out) := st in
  if py_in token (chars "MmLlCcZz") then
    Ok (mkCursor (i + 1) cx cy (Some token) out)
  else if is_cmd cmd "M" || is_cmd cmd "m" then
    let* x := float_of_str token in
    let* y := float_at tokens (i + 1) in
    let '(nx, ny) := if is_cmd cmd "M" then (x, y) else (cx + x, cy + y) in
    Ok (mkCursor (i + 2) nx ny
          (Some (if is_cmd cmd "M" then chars "L" else chars "l"))
          (out ++ [MoveTo nx ny]))
  else if is_cmd cmd "L" || is_cmd cmd "l" then
    let* x := float_of_str token in
    let* y := float_at tokens (i + 1) in
    let '(nx, ny) := if is_cmd cmd "L" then (x, y) else (cx + x, cy + y) in
    Ok (mkCursor (i + 2) nx ny cmd (out ++ [LineTo nx ny]))
  else if is_cmd cmd "C" || is_cmd cmd "c" then
    let* x1 := float_of_str token in
    let* y1 := float_at tokens (i + 1) in
    let* x2 := float_at tokens (i + 2) in
    let* y2 := float_at tokens (i + 3) in
    let* x := float_at tokens (i + 4) in
    let* y := float_at tokens (i + 5) in
    if is_cmd cmd "C" then
      Ok (mkCursor (i + 6) x y cmd (out ++ [CurveTo x1 y1 x2 y2 x y]))
    else
      Ok (mkCursor (i + 6) (cx + x) (cy + y) cmd
            (out ++ [CurveTo (cx + x1) (cy + y1) (cx + x2) (cy + y2) (cx + x) (cy + y)]))
  else if is_cmd cmd "Z" || is_cmd cmd "z" then
    Ok (mkCursor (i + 1) cx cy None (out ++ [ClosePath]))
  else
    Ok (mkCursor (i + 1) cx cy cmd out).

(** [while i < len(tokens): ...]; an exception leaves the loop with the
    primitives already issued on the context.  Every iteration advances
    [i], so [len(tokens)] rounds are enough ([loop_spec] below). *)
Fixpoint loop (fuel : nat) (tokens : list (list ascii)) (st : cursor)
  : cursor * option exn :=
  match fuel with
  | O => (st, None)
  | Datatypes.S f =>
      match nth_error tokens (i st) with
      | None => (st, None)
      | Some token =>
          match step tokens st token with
          | Ok st' => loop f tokens st'
          | Err e => (st, Some e)
          end
      end
  end.

Definition _parse_path_data (path_data : string) : cursor * option exn :=
  let tokens := tokenize path_data in
  loop (List.length tokens) tokens cursor0.

(** The primitives [_parse_path_data] issues on the context. *)
Definition path_prims (path_data : string) : list prim :=
  emitted (fst (_parse_path_data path_data)).

(** *** Reading the interpreter's runs *)

(** The number of coordinates the active command consumes per iteration. *)
Definition coord_count (cmd : option (list ascii)) : nat :=
  if is_cmd cmd "M" || is_cmd cmd "m" then 2
  else if is_cmd cmd "L" || is_cmd cmd "l" then 2
  else if is_cmd cmd "C" || is_cmd cmd "c" then 6
  else 0.

(** [reaches tokens st st']: the loop goes from [st] to [st'] by iterations
    that all complete without an exception. *)
Inductive reaches (tokens : list (list ascii)) : cursor -> cursor -> Prop :=
| reaches_refl st : reaches tokens st st
| reaches_step st t st1 st2 :
    nth_error tokens (i st) = Some t -> step tokens st t = Ok st1 ->
    reaches tokens st1 st2 -> reaches tokens st st2.

(** A command-letter token. *)
Definition letter_tok (t : list ascii) : Prop :=
  exists c, t = [c] /\ is_cmd_letter c = true.

(** A token [float()] accepts and that is not a substring of ['MmLlCcZz']. *)
Definition number_tok (t : list ascii) : Prop :=
  py_float t <> None /\ py_in t (chars "MmLlCcZz") = false.

Definition tok_ok (t : list ascii) : Prop := letter_tok t \/ number_tok t.

(** The coordinate slots [tokens[k + j]], [0 < j < n], that exist hold numbers. *)
Definition numbers_between (tokens : list (list ascii)) (k n : nat) : Prop :=
  forall j t, (0 < j < n)%nat -> nth_error tokens (k + j) = Some t -> number_tok t.

(** The [n] slots from [k] pass the end of the token list, and every slot
    before the end holds a number. *)
Definition runs_out (tokens : list (list ascii)) (k n : nat) : Prop :=
  (List.length tokens < k + n)%nat /\ numbers_between tokens k n.

(** A coordinate slot [tokens[k + j]], [0 < j < n], holds a command letter,
    and the slots before it hold numbers. *)
Definition letter_in_slot (tokens : list (list ascii)) (k n : nat) : Prop :=
  exists j t, (0 < j < n)%nat /\ nth_error tokens (k + j) = Some t /\ letter_tok t
              /\ numbers_between tokens k j.

(** Why an iteration at [st] raised [e]: [IndexError] on [tokens[len(tokens)]]
    when the coordinates run out, or [ValueError] on a letter in a slot. *)
Definition path_failure (tokens : list (list ascii)) (st : cursor) (e : exn) : Prop :=
  let n := coord_count (current_command st) in
  (e = IndexError (List.length tokens) /\ runs_out tokens (i st) n)
  \/ (exists m, e = ValueError m /\ letter_in_slot tokens (i st) n).

(** Shapes of the text around a number token. *)
Definition ends_run (rest : list ascii) : Prop :=
  match rest with c :: _ => is_digit c = false /\ c <> "_"%char | [] => True end.

Definition exp_head (ex : list ascii) : Prop :=
  ex = [] \/ exists e t, ex = e :: t /\ (e = "e"%char \/ e = "E"%char).

Definition num_char (c : ascii) : Prop :=
  is_digit c = true \/ c = "."%char \/ c = "e"%char \/ c = "E"%char \/ c = "-"%char \/ c = "+"%char.

End Renderer.

(** ** style.py: StyleParser *)
Module Style.
Import Xml.
Local Open Scope float_scope.

(** A Python [dict] with [str] keys, in insertion order. *)
Definition dict := list (string * string).

Fixpoint dict_get (d : dict) (k : string) : option string :=
  match d with
  | [] => None
  | (k', v) :: r => if String.eqb k k' then Some v else dict_get r k
  end.

(** [d[k] = v]: an existing key keeps its position. *)
Fixpoint dict_set (d : dict) (k v : string) : dict :=
  match d with
  | [] => [(k, v)]
  | (k', v') :: r => if String.eqb k k' then (k', v) :: r else (k', v') :: dict_set r k v
  end.

Definition dict_has (d : dict) (k : string) : bool :=
  match dict_get d k with Some _ => true | None => false end.

(** [prop, value = declaration.split(':', 1)] *)
Fixpoint split_colon (l : list ascii) : list ascii * list ascii :=
  match l with
  | [] => ([], [])
  | c :: r =>
      if Ascii.eqb c ":" then ([], r)
      else let '(a, b) := split_colon r in (c :: a, b)
  end.

Definition has_colon (l : list ascii) : bool := existsb (fun c => Ascii.eqb c ":") l.

(** The first loop of [parse_style]: the declarations of the [style]
    attribute, in order. *)
Definition parse_declarations (styles : dict) (style_attr : string) : dict :=
  fold_left
    (fun acc declaration =>
       let declaration := strip declaration in
       if has_colon declaration then
         let '(prop, value) := split_colon declaration in
         dict_set acc (str (strip prop)) (str (strip value))
       else acc)
    (split_on ";" (chars style_attr)) styles.

Definition svg_style_attrs : list string :=
  ["fill"; "fill-opacity"; "stroke"; "stroke-width";
   "stroke-opacity"; "stroke-linejoin"; "stroke-linecap";
   "stroke-miterlimit"; "stroke-dasharray"; "opacity"]%string.

(** The second loop of [parse_style]: presentation attributes that the
    [style] attribute did not set. *)
Definition add_presentation_attrs (element : element) (styles : dict) : dict :=
  fold_left
    (fun acc attr =>
       if negb (dict_has acc attr) then
         match get element attr with
         | Some value => dict_set acc attr value
         | None => acc
         end
       else acc)
    svg_style_attrs styles.

(** The [styles] dict after the first loop of [parse_style]. *)
Definition inline_styles (element : element) : dict :=
  let style_attr := get_default element "style" EmptyString in
  if SVGParser.nonempty style_attr then parse_declarations [] style_attr else [].

(** [parse_style()].  The memoised [_style_dict] is the value of this
    function on the (unchanged) element. *)
Definition parse_style (element : element) : dict :=
  add_presentation_attrs element (inline_styles element).

(** *** [get_color] *)

Definition rgb := (float * float * float)%type.

Definition NAMED_COLORS : list (string * (Z * Z * Z)) :=
  [("black", (0, 0, 0)); ("white", (255, 255, 255)); ("red", (255, 0, 0));
   ("green", (0, 128, 0)); ("blue", (0, 0, 255)); ("yellow", (255, 255, 0));
   ("cyan", (0, 255, 255)); ("magenta", (255, 0, 255)); ("gray", (128, 128, 128));
   ("grey", (128, 128, 128)); ("silver", (192, 192, 192)); ("maroon", (128, 0, 0));
   ("olive", (128, 128, 0)); ("lime", (0, 255, 0)); ("aqua", (0, 255, 255));
   ("teal", (0, 128, 128)); ("navy", (0, 0, 128)); ("fuchsia", (255, 0, 255));
   ("purple", (128, 0, 128))]%string%Z.

Fixpoint lookup_named (tbl : list (string * (Z * Z * Z))) (k : string) : option (Z * Z * Z) :=
  match tbl with
  | [] => None
  | (k', v) :: r => if String.eqb k k' then Some v else lookup_named r k
  end.

Definition hex_val (c : ascii) : option Z :=
  match digit_val c with
  | Some d => Some d
  | None =>
      let n := nat_of_ascii (lower_char c) in
      if ((97 <=? n)%nat && (n <=? 102)%nat) then Some (Z.of_nat n - 87)%Z else None
  end.

(** Hex digits with single underscores between them. *)
Fixpoint hex_digits (l : list ascii) (acc : Z) (first : bool) : option Z :=
  match l with
  | [] => if first then None else Some acc
  | c :: r =>
      match hex_val c with
      | Some d => hex_digits r (16 * acc + d)%Z false
      | None =>
          if Ascii.eqb c "_" && negb first then
            match r with
            | c' :: _ => match hex_val c' with Some _ => hex_digits r acc false | None => None end
            | [] => None
            end
          else None
      end
  end.

(** [int(s, 16)]: whitespace, a sign, an optional [0x] prefix (with an
    optional underscore after it) and hex digits. *)
Definition py_int16 (s : list ascii) : option Z :=
  let '(neg, body) := parse_sign (strip s) in
  let digits :=
    match body with
    | z :: x :: r =>
        if Ascii.eqb z "0" && Ascii.eqb (lower_char x) "x" then
          match r with
          | u :: r' => if Ascii.eqb u "_" then r' else r
          | [] => r
          end
        else body
    | _ => body
    end in
  match hex_digits digits 0%Z true with
  | Some v => Some (if neg then (- v)%Z else v)
  | None => None
  end.

Definition slice (l : list ascii) (a b : nat) : list ascii := firstn (b - a) (skipn a l).

Definition div255 (n : Z) : float := float_of_Z n / 255.0.

(** [re.match(r'rgb\s*\(\s*(\d+)\s*,\s*(\d+)\s*,\s*(\d+)\s*\)', s)],
    anchored at the start only. *)
Definition skip_ws (l : list ascii) : list ascii := lstrip l.

Definition expect (c : ascii) (l : list ascii) : option (list ascii) :=
  match l with
  | c' :: r => if Ascii.eqb c c' then Some r else None
  | [] => None
  end.

Definition digits1 (l : list ascii) : option (Z * list ascii) :=
  match Renderer.span_digits l with
  | ([], _) => None
  | (ds, r) => Some (digits_value (rev (map (fun c => match digit_val c with Some d => d | None => 0%Z end) ds)), r)
  end.

Definition match_rgb (l : list ascii) : option (Z * Z * Z) :=
  match Renderer.is_prefix (chars "rgb") l with
  | false => None
  | true =>
      match expect "(" (skip_ws (skipn 3 l)) with
      | None => None
      | Some l1 =>
          match digits1 (skip_ws l1) with
          | None => None
          | Some (r, l2) =>
              match expect "," (skip_ws l2) with
              | None => None
              | Some l3 =>
                  match digits1 (skip_ws l3) with
                  | None => None
                  | Some (g, l4) =>
                      match expect "," (skip_ws l4) with
                      | None => None
                      | Some l5 =>
                          match digits1 (skip_ws l5) with
                          | None => None
                          | Some (b, l6) =>
                              match expect ")" (skip_ws l6) with
                              | None => None
                              | Some _ => Some (r, g, b)
                              end
                          end
                      end
                  end
              end
          end
      end
  end.

Definition get_color (color_str : string) : result (option rgb) :=
  if negb (SVGParser.nonempty color_str)
     || (if list_eq_dec ascii_dec (lower (chars color_str)) (chars "none") then true else false)
  then Ok None
  else
    let cs := lower (strip (chars color_str)) in
    let hex_result :=
      match cs with
      | c :: hex_color =>
          if Ascii.eqb c "#" then
            let hex_color :=
              if (List.length hex_color =? 3)%nat
              then flat_map (fun c => [c; c]) hex_color else hex_color in
            if (List.length hex_color =? 6)%nat then
              match py_int16 (slice hex_color 0 2), py_int16 (slice hex_color 2 4),
                    py_int16 (slice hex_color 4 6) with
              | Some r, Some g, Some b => Some (Ok (Some (div255 r, div255 g, div255 b)))
              | _, _, _ => Some (Err (ValueError ("Invalid hex color: " ++ str cs)))
              end
            else None
          else None
      | [] => None
      end in
    match hex_result with
    | Some res => res
    | None =>
        match lookup_named NAMED_COLORS (str cs) with
        | Some (r, g, b) => Ok (Some (div255 r, div255 g, div255 b))
        | None =>
            match match_rgb cs with
            | Some (r, g, b) => Ok (Some (div255 r, div255 g, div255 b))
            | None => Err (ValueError ("Unsupported color format: " ++ str cs))
            end
        end
    end.

(** *** Opacity and paint accessors *)

(** [min(a, b)] and [max(a, b)] on floats: the first argument is kept
    unless the second compares strictly smaller (resp. larger). *)
Definition py_min (a b : float) : float := if b <? a then b else a.
Definition py_max (a b : float) : float := if a <? b then b else a.

Definition get_opacity (opacity_str : string) : result float :=
  if negb (SVGParser.nonempty opacity_str) then Ok 1.0
  else
    let t := strip (chars opacity_str) in
    if endswith t (chars "%") then
      match py_float (drop_last 1 t) with
      | Some f => Ok (f / 100.0)
      | None => Err (ValueError ("Invalid opacity percentage: " ++ str t))
      end
    else
      match py_float t with
      | Some opacity => Ok (py_max 0.0 (py_min 1.0 opacity))
      | None => Err (ValueError ("Invalid opacity value: " ++ str t))
      end.

(** [get_fill()] *)
Definition get_fill (element : element) : result (option rgb) :=
  let styles := parse_style element in
  match dict_get styles "fill" with
  | Some fill => if SVGParser.nonempty fill then get_color fill else Ok None
  | None => Ok None
  end.

(** [get_stroke()] *)
Definition get_stroke (element : element) : result (option rgb) :=
  let styles := parse_style element in
  match dict_get styles "stroke" with
  | Some stroke => if SVGParser.nonempty stroke then get_color stroke else Ok None
  | None => Ok None
  end.

(** [get_fill_opacity()] *)
Definition get_fill_opacity (element : element) : result float :=
  let styles := parse_style element in
  get_opacity (match dict_get styles "fill-opacity" with Some v => v | None => "1.0"%string end).

(** [get_stroke_opacity()] *)
Definition get_stroke_opacity (element : element) : result float :=
  let styles := parse_style element in
  get_opacity (match dict_get styles "stroke-opacity" with Some v => v | None => "1.0"%string end).

(** The units [get_stroke_width] removes (no ['%'], unlike [_parse_dimension]). *)
Definition stroke_width_units : list string :=
  ["px"; "pt"; "mm"; "cm"; "in"; "pc"; "em"; "ex"]%string.

(** [get_stroke_width(width_str)]: [strip()], drop the first matching unit
    suffix, then [float()]. *)
Definition get_stroke_width (width_str : string) : result float :=
  if negb (SVGParser.nonempty width_str) then Ok 1.0
  else
    let w := SVGParser.strip_unit stroke_width_units (strip (chars width_str)) in
    match py_float w with
    | Some f => Ok f
    | None => Err (ValueError ("Invalid stroke width: " ++ str w))
    end.

(** [get_stroke_width_value()] *)
Definition get_stroke_width_value (element : element) : result float :=
  let styles := parse_style element in
  get_stroke_width (match dict_get styles "stroke-width" with Some v => v | None => "1"%string end).

(** The value of a run of decimal digits, as [int()] reads it. *)
Definition decimal_value (ds : list ascii) : Z :=
  digits_value (rev (map (fun c => match digit_val c with Some d => d | None => 0%Z end) ds)).

Definition all_digits (ds : list ascii) : Prop := Forall (fun c => is_digit c = true) ds.

End Style.

(** ** layer.py: LayerExtractor *)
Module Layer.
Import Xml.

(** The attribute [{namespaces["inkscape"]}label]. *)
Definition label_key : string := "{http://www.inkscape.org/namespaces/inkscape}label".

(** The double quote character and the one-character string of it. *)
Definition dquote : ascii := ascii_of_nat 34.
Definition dq : string := String dquote EmptyString.

(** A character lxml accepts in an XPath expression string: [xpath()]
    raises [ValueError] on the other control characters. *)
Definition xml_char (c : ascii) : bool :=
  let n := nat_of_ascii c in
  (32 <=? n)%nat || (n =? 9)%nat || (n =? 10)%nat || (n =? 13)%nat.

(** *** XPath predicates

    [get_layer_by_id] formats the identifier into the predicate
    [[@id="<layer_id>"]] of an XPath query.  The fragment of XPath 1.0
    modelled here covers what such a predicate can contain: attribute
    references, string literals, [=], [!=], [and], [or] and parentheses.
    A predicate outside the fragment is reported as [XPathEvalError]. *)

Inductive xtok :=
| TLBrack | TRBrack | TLPar | TRPar | TEq | TNeq | TAt
| TName (n : list ascii)
| TLit (s : list ascii).

Definition is_name_char (c : ascii) : bool :=
  let n := nat_of_ascii c in
  ((97 <=? n)%nat && (n <=? 122)%nat) || ((65 <=? n)%nat && (n <=? 90)%nat)
  || ((48 <=? n)%nat && (n <=? 57)%nat)
  || Ascii.eqb c "-" || Ascii.eqb c "_" || Ascii.eqb c "." || Ascii.eqb c ":".

Fixpoint span_name (l : list ascii) : list ascii * list ascii :=
  match l with
  | c :: r => if is_name_char c then let '(a, b) := span_name r in (c :: a, b) else ([], l)
  | [] => ([], [])
  end.

(** The characters of a literal up to the closing quote [q]. *)
Fixpoint scan_literal (q : ascii) (l : list ascii) : option (list ascii * list ascii) :=
  match l with
  | [] => None
  | c :: r =>
      if Ascii.eqb c q then Some ([], r)
      else match scan_literal q r with
           | Some (a, b) => Some (c :: a, b)
           | None => None
           end
  end.

Fixpoint xlex (fuel : nat) (l : list ascii) : option (list xtok) :=
  match fuel with
  | O => None
  | Datatypes.S f =>
      match l with
      | [] => Some []
      | c :: r =>
          let cons_tok t rest :=
            match xlex f rest with Some ts => Some (t :: ts) | None => None end in
          if is_space c then xlex f r
          else if Ascii.eqb c "[" then cons_tok TLBrack r
          else if Ascii.eqb c "]" then cons_tok TRBrack r
          else if Ascii.eqb c "(" then cons_tok TLPar r
          else if Ascii.eqb c ")" then cons_tok TRPar r
          else if Ascii.eqb c "=" then cons_tok TEq r
          else if Ascii.eqb c "@" then cons_tok TAt r
          else if Ascii.eqb c "!" then
            match r with
            | c' :: r' => if Ascii.eqb c' "=" then cons_tok TNeq r' else None
            | [] => None
            end
          else if Ascii.eqb c dquote || Ascii.eqb c "'" then
            match scan_literal c r with
            | Some (lit, rest) => cons_tok (TLit lit) rest
            | None => None
            end
          else if is_name_char c then
            let '(n, rest) := span_name l in cons_tok (TName n) rest
          else None
      end
  end.

Inductive xexpr :=
| XAttr (n : list ascii)
| XLit (s : list ascii)
| XEq (a b : xexpr)
| XNeq (a b : xexpr)
| XAnd (a b : xexpr)
| XOr (a b : xexpr).

Definition is_name (t : xtok) (n : string) : bool :=
  match t with
  | TName m => if list_eq_dec ascii_dec m (chars n) then true else false
  | _ => false
  end.

(** Recursive descent: [Or := And ("or" And)*], [And := Eq ("and" Eq)*],
    [Eq := Prim (("=" | "!=") Prim)*], [Prim := "@" Name | Literal | "(" Or ")"]. *)
Fixpoint p_or (fuel : nat) (ts : list xtok) : option (xexpr * list xtok) :=
  match fuel with
  | O => None
  | Datatypes.S f =>
      match p_and f ts with
      | Some (a, rest) => p_or_tail f a rest
      | None => None
      end
  end
with p_or_tail (fuel : nat) (a : xexpr) (ts : list xtok) : option (xexpr * list xtok) :=
  match fuel with
  | O => None
  | Datatypes.S f =>
      match ts with
      | t :: rest =>
          if is_name t "or" then
            match p_and f rest with
            | Some (b, rest') => p_or_tail f (XOr a b) rest'
            | None => None
            end
          else Some (a, ts)
      | [] => Some (a, ts)
      end
  end
with p_and (fuel : nat) (ts : list xtok) : option (xexpr * list xtok) :=
  match fuel with
  | O => None
  | Datatypes.S f =>
      match p_eq f ts with
      | Some (a, rest) => p_and_tail f a rest
      | None => None
      end
  end
with p_and_tail (fuel : nat) (a : xexpr) (ts : list xtok) : option (xexpr * list xtok) :=
  match fuel with
  | O => None
  | Datatypes.S f =>
      match ts with
      | t :: rest =>
          if is_name t "and" then
            match p_eq f rest with
            | Some (b, rest') => p_and_tail f (XAnd a b) rest'
            | None => None
            end
          else Some (a, ts)
      | [] => Some (a, ts)
      end
  end
with p_eq (fuel : nat) (ts : list xtok) : option (xexpr * list xtok) :=
  match fuel with
  | O => None
  | Datatypes.S f =>
      match p_prim f ts with
      | Some (a, rest) => p_eq_tail f a rest
      | None => None
      end
  end
with p_eq_tail (fuel : nat) (a : xexpr) (ts : list xtok) : option (xexpr * list xtok) :=
  match fuel with
  | O => None
  | Datatypes.S f =>
      match ts with
      | TEq :: rest =>
          match p_prim f rest with
          | Some (b, rest') => p_eq_tail f (XEq a b) rest'
          | None => None
          end
      | TNeq :: rest =>
          match p_prim f rest with
          | Some (b, rest') => p_eq_tail f (XNeq a b) rest'
          | None => None
          end
      | _ => Some (a, ts)
      end
  end
with p_prim (fuel : nat) (ts : list xtok) : option (xexpr * list xtok) :=
  match fuel with
  | O => None
  | Datatypes.S f =>
      match ts with
      | TAt :: TName n :: rest => Some (XAttr n, rest)
      | TLit s :: rest => Some (XLit s, rest)
      | TLPar :: rest =>
          match p_or f rest with
          | Some (a, TRPar :: rest') => Some (a, rest')
          | _ => None
          end
      | _ => None
      end
  end.

(** A whole predicate [[ Or ]]. *)
Definition parse_predicate (text : list ascii) : option xexpr :=
  match xlex (List.length text + 1) text with
  | Some (TLBrack :: ts) =>
      match p_or (3 * List.length ts + 3) ts with
      | Some (e, [TRBrack]) => Some e
      | _ => None
      end
  | _ => None
  end.

(** XPath 1.0 values of the fragment. *)
Inductive xval := VNodes (vs : list (list ascii)) | VStr (s : list ascii) | VBool (b : bool).

Definition xboolean (v : xval) : bool :=
  match v with
  | VNodes vs => negb (Nat.eqb (List.length vs) 0)
  | VStr s => negb (Nat.eqb (List.length s) 0)
  | VBool b => b
  end.

Definition leq (a b : list ascii) : bool := if list_eq_dec ascii_dec a b then true else false.

(** [a = b] ([eq = true]) and [a != b] ([eq = false]), XPath 1.0 §3.4. *)
Definition xcompare (eq : bool) (a b : xval) : bool :=
  let rel x y := if eq then leq x y else negb (leq x y) in
  match a, b with
  | VBool _, _ | _, VBool _ => Bool.eqb (Bool.eqb (xboolean a) (xboolean b)) eq
  | VNodes xs, VNodes ys => existsb (fun x => existsb (fun y => rel x y) ys) xs
  | VNodes xs, VStr y => existsb (fun x => rel x y) xs
  | VStr x, VNodes ys => existsb (fun y => rel x y) ys
  | VStr x, VStr y => rel x y
  end.

Fixpoint xeval (e : xexpr) (node : element) : xval :=
  match e with
  | XAttr n =>
      match get node (str n) with Some v => VNodes [chars v] | None => VNodes [] end
  | XLit s => VStr s
  | XEq a b => VBool (xcompare true (xeval a node) (xeval b node))
  | XNeq a b => VBool (xcompare false (xeval a node) (xeval b node))
  | XAnd a b => VBool (xboolean (xeval a node) && xboolean (xeval b node))
  | XOr a b => VBool (xboolean (xeval a node) || xboolean (xeval b node))
  end.

(** *** LayerExtractor

    [layers] is the result of [.//svg:g[@inkscape:groupmode="layer"]] on
    the root: the layer groups in document order. *)

Definition get_layer_by_name (layers : list element) (layer_name : string) : option element :=
  find (fun layer =>
          match get layer label_key with
          | Some label => String.eqb label layer_name
          | None => false
          end) layers.

Definition get_layer_by_id (layers : list element) (layer_id : string) : result (option element) :=
  match parse_predicate (chars ("[@id=" ++ dq ++ layer_id ++ dq ++ "]")) with
  | Some pred => Ok (find (fun layer => xboolean (xeval pred layer)) layers)
  | None => Err XPathEvalError
  end.

Fixpoint get_layer_names (layers : list element) : list string :=
  match layers with
  | [] => []
  | layer :: rest =>
      match get layer label_key with
      | Some label =>
          if SVGParser.nonempty label then label :: get_layer_names rest
          else match get layer "id" with
               | Some layer_id =>
                   if SVGParser.nonempty layer_id then layer_id :: get_layer_names rest
                   else get_layer_names rest
               | None => get_layer_names rest
               end
      | None =>
          match get layer "id" with
          | Some layer_id =>
              if SVGParser.nonempty layer_id then layer_id :: get_layer_names rest
              else get_layer_names rest
          | None => get_layer_names rest
          end
      end
  end.

(** [', '.join(names)] *)
Fixpoint join (sep : string) (l : list string) : string :=
  match l with
  | [] => EmptyString
  | [x] => x
  | x :: r => x ++ sep ++ join sep r
  end.

Definition not_found_message (identifier : string) (available_layers : list string) : string :=
  "Layer '" ++ identifier ++ "' not found. Available layers: "
  ++ (match available_layers with [] => "none" | _ => join ", " available_layers end).

(** [get_layer(identifier)]; the [ValueError] is the spec's [LayerNotFound]. *)
Definition get_layer (layers : list element) (identifier : string) : result element :=
  match get_layer_by_name layers identifier with
  | Some layer => Ok layer
  | None =>
      let* by_id := get_layer_by_id layers identifier in
      match by_id with
      | Some layer => Ok layer
      | None => Err (ValueError (not_found_message identifier (get_layer_names layers)))
      end
  end.

(** *** [extract_elements]

    The subtree of a layer: each element with its namespace URI, local
    name, attributes and children, in document order. *)
Inductive node := Node (ns : option string) (local : string) (attrs : element) (children : list node).

Definition node_attrs (n : node) : element := let '(Node _ _ a _) := n in a.

(** The descendants of an element in document order (pre-order), without
    the element itself: the nodes [.//x] ranges over. *)
Fixpoint descendants (n : node) : list node :=
  match n with
  | Node _ _ _ cs =>
      (fix go (cs : list node) : list node :=
         match cs with
         | [] => []
         | c :: r => c :: descendants c ++ go r
         end) cs
  end.

(** The name test [svg:<local>], with [svg] bound to the namespace URI [svg_ns]. *)
Definition is_svg_elem (svg_ns : string) (local : string) (n : node) : bool :=
  match n with
  | Node (Some u) l _ _ => String.eqb u svg_ns && String.eqb l local
  | Node None _ _ _ => false
  end.

(** [extract_elements(layer, element_types)]: one [.//svg:<type>] query per
    type, the results concatenated in the order of [element_types]. *)
Definition extract_elements (svg_ns : string) (layer : node) (element_types : option (list string))
  : list node :=
  let element_types := match element_types with Some ts => ts | None => ["path"; "rect"]%string end in
  flat_map (fun elem_type => filter (is_svg_elem svg_ns elem_type) (descendants layer)) element_types.

End Layer.

(** ** renderer.py: drawing on the Cairo context

    The calls [setup_surface], [render_rect], [render_path] and
    [render_elements] issue on the context, in order.  An exception leaves
    the method and, through the callers in api.py, the whole rendering, so
    no PNG is written: the [Err] branch carries no calls. *)
Module Draw.
Import Xml Renderer Style Layer.
Local Open Scope float_scope.

Inductive line_join := LINE_JOIN_MITER | LINE_JOIN_ROUND | LINE_JOIN_BEVEL.

Inductive op :=
| SetSourceRGB (r g b : float)
| Paint
| PathOp (p : prim)
| Rectangle (x y width height : float)
| SetSourceRGBA (r g b a : float)
| Fill
| FillPreserve
| Stroke
| SetLineWidth (w : float)
| SetLineJoin (j : line_join)
| SetMiterLimit (m : float).

(** [setup_surface()]: a white background. *)
Definition setup_surface : list op := [SetSourceRGB 1 1 1; Paint].

(** [float(element.get(k, 0))] *)
Definition float_attr (e : element) (k : string) : result float :=
  match get e k with
  | Some v => float_of_str (chars v)
  | None => Ok 0
  end.

(** The [# Apply fill] block, shared by [render_rect] and [render_path]. *)
Definition fill_ops (e : element) : result (list op) :=
  let* fill_color := get_fill e in
  match fill_color with
  | Some (r, g, b) =>
      let* fill_opacity := get_fill_opacity e in
      let* stroke := get_stroke e in
      Ok [SetSourceRGBA r g b fill_opacity;
          match stroke with Some _ => FillPreserve | None => Fill end]
  | None => Ok []
  end.

(** The [# Apply stroke] block of [render_rect]. *)
Definition rect_stroke_ops (e : element) : result (list op) :=
  let* stroke_color := get_stroke e in
  match stroke_color with
  | Some (r, g, b) =>
      let* stroke_width := get_stroke_width_value e in
      let* stroke_opacity := get_stroke_opacity e in
      Ok [SetSourceRGBA r g b stroke_opacity; SetLineWidth stroke_width; Stroke]
  | None => Ok []
  end.

(** [render_rect(element)]; [context_ready] is [self.context is not None]. *)
Definition render_rect (context_ready : bool) (e : element) : result (list op) :=
  if negb context_ready then Ok []
  else
    let* x := float_attr e "x" in
    let* y := float_attr e "y" in
    let* width := float_attr e "width" in
    let* height := float_attr e "height" in
    let* fill := fill_ops e in
    let* stroke := rect_stroke_ops e in
    Ok (Rectangle x y width height :: fill ++ stroke).

(** The [stroke-linejoin] branch of [render_path]. *)
Definition line_join_of (stroke_linejoin : string) : line_join :=
  if String.eqb stroke_linejoin "round" then LINE_JOIN_ROUND
  else if String.eqb stroke_linejoin "bevel" then LINE_JOIN_BEVEL
  else LINE_JOIN_MITER.

(** The [stroke-miterlimit] branch: a [ValueError] of [float()] is
    swallowed. *)
Definition miter_ops (stroke_miterlimit : option string) : list op :=
  match stroke_miterlimit with
  | Some m =>
      if SVGParser.nonempty m then
        match py_float (chars m) with
        | Some f => [SetMiterLimit f]
        | None => []
        end
      else []
  | None => []
  end.

(** The [# Apply stroke] block of [render_path]. *)
Definition path_stroke_ops (e : element) : result (list op) :=
  let* stroke_color := get_stroke e in
  match stroke_color with
  | Some (r, g, b) =>
      let* stroke_width := get_stroke_width_value e in
      let* stroke_opacity := get_stroke_opacity e in
      let styles := parse_style e in
      let stroke_linejoin :=
        match dict_get styles "stroke-linejoin" with Some v => v | None => "miter"%string end in
      Ok ([SetSourceRGBA r g b stroke_opacity; SetLineWidth stroke_width;
           SetLineJoin (line_join_of stroke_linejoin)]
          ++ miter_ops (dict_get styles "stroke-miterlimit") ++ [Stroke])
  | None => Ok []
  end.

(** [render_path(element)] *)
Definition render_path (context_ready : bool) (e : element) : result (list op) :=
  if negb context_ready then Ok []
  else
    let path_data := get_default e "d" EmptyString in
    if negb (SVGParser.nonempty path_data) then Ok []
    else
      let* prims :=
        match _parse_path_data path_data with
        | (st, None) => Ok (emitted st)
        | (_, Some ex) => Err ex
        end in
      let* fill := fill_ops e in
      let* stroke := path_stroke_ops e in
      Ok (map PathOp prims ++ fill ++ stroke).

(** The loop body of [render_elements]: dispatch on
    [etree.QName(element.tag).localname]; the context is set up. *)
Definition render_element (n : node) : result (list op) :=
  match n with
  | Node _ local attrs _ =>
      if String.eqb local "rect" then render_rect true attrs
      else if String.eqb local "path" then render_path true attrs
      else Ok []
  end.

Fixpoint render_each (elements : list node) : result (list op) :=
  match elements with
  | [] => Ok []
  | e :: r =>
      let* a := render_element e in
      let* b := render_each r in
      Ok (a ++ b)
  end.

(** [render_elements(elements)] *)
Definition render_elements (context_ready : bool) (elements : list node) : result (list op) :=
  let setup := if context_ready then [] else setup_surface in
  let* ops := render_each elements in
  Ok (setup ++ ops).

End Draw.

(** ** writer.py: SVGWriter

    The document built by the writer, below its root element.  The root's
    own attributes are written with Python's [str()] of floats and are not
    modelled; [str()] of a float, which [add_rect] uses, is the section
    variable [float_str]. *)
Module Writer.
Import Xml Style Layer.

Inductive wnode := WElem (tag : string) (attrs : element) (children : list wnode).

Definition svg_tag (local : string) : string := "{http://www.w3.org/2000/svg}" ++ local.
Definition groupmode_key : string := "{http://www.inkscape.org/namespaces/inkscape}groupmode".

(** [_build_style_string(element)]; its list of presentation attributes is
    the same as [parse_style]'s, and [attr not in style_attr] is a
    substring test on the [style] text. *)
Definition _build_style_string (element : element) : string :=
  let style_attr := get_default element "style" EmptyString in
  let style_parts := if SVGParser.nonempty style_attr then [style_attr] else [] in
  let style_parts :=
    fold_left
      (fun parts attr =>
         match get element attr with
         | Some value =>
             if negb (Renderer.py_in (chars attr) (chars style_attr))
             then parts ++ [(attr ++ ":" ++ value)%string]
             else parts
         | None => parts
         end)
      svg_style_attrs style_parts in
  join ";" style_parts.

(** The attributes [add_path] sets on the new [path] element, in order. *)
Definition path_attrs (path_data style : string) (element_id : option string) : element :=
  [("d", path_data)]%string
  ++ (if SVGParser.nonempty style then [("style", style)]%string else [])
  ++ (match element_id with
      | Some i => if SVGParser.nonempty i then [("id", i)]%string else []
      | None => []
      end).

(** [layer_name.lower().replace(' ', '_')] *)
Definition layer_id_of (layer_name : string) : string :=
  str (map (fun c => if Ascii.eqb c " " then "_"%char else c) (lower (chars layer_name))).

Section WriterState.

(** Python's [str()] of a float. *)
Variable float_str : float -> string.

(** The writer's state: the children of the root element, and
    [self.layers], which maps a layer name to the position of its group
    among those children. *)
Record SVGWriter := mkSVGWriter {
  children : list wnode;
  layers : list (string * nat);
}.

(** [SVGWriter(viewbox)], below the root. *)
Definition SVGWriter_new : SVGWriter := mkSVGWriter [] [].

Fixpoint layers_get (d : list (string * nat)) (k : string) : option nat :=
  match d with
  | [] => None
  | (k', v) :: r => if String.eqb k k' then Some v else layers_get r k
  end.

(** [self.layers[k] = v] *)
Fixpoint layers_set (d : list (string * nat)) (k : string) (v : nat) : list (string * nat) :=
  match d with
  | [] => [(k, v)]
  | (k', v') :: r => if String.eqb k k' then (k', v) :: r else (k', v') :: layers_set r k v
  end.

(** [create_layer(layer_name, layer_id)]: the new group and its position. *)
Definition create_layer (w : SVGWriter) (layer_name : string) (layer_id : option string)
  : SVGWriter * nat :=
  let layer_id := match layer_id with Some i => i | None => layer_id_of layer_name end in
  let layer := WElem (svg_tag "g")
                 [("id", layer_id); (groupmode_key, "layer"); (label_key, layer_name)]%string [] in
  let pos := List.length (children w) in
  (mkSVGWriter (children w ++ [layer]) (layers_set (layers w) layer_name pos), pos).

Definition append_child (parent child : wnode) : wnode :=
  let '(WElem t a cs) := parent in WElem t a (cs ++ [child]).

Fixpoint update_nth {A} (k : nat) (f : A -> A) (l : list A) : list A :=
  match l, k with
  | [], _ => []
  | x :: r, O => f x :: r
  | x :: r, Datatypes.S k' => x :: update_nth k' f r
  end.

(** [etree.SubElement(parent, ...)], the parent being the root ([None]) or
    a layer group. *)
Definition add_to (w : SVGWriter) (parent : option nat) (child : wnode) : SVGWriter :=
  match parent with
  | None => mkSVGWriter (children w ++ [child]) (layers w)
  | Some k => mkSVGWriter (update_nth k (fun g => append_child g child) (children w)) (layers w)
  end.

(** [# Get or create layer] of [add_path] and [add_rect]. *)
Definition get_or_create (w : SVGWriter) (layer_name : option string) : SVGWriter * option nat :=
  match layer_name with
  | Some n =>
      if SVGParser.nonempty n then
        match layers_get (layers w) n with
        | Some k => (w, Some k)
        | None => let '(w', k) := create_layer w n None in (w', Some k)
        end
      else (w, None)
  | None => (w, None)
  end.

(** [add_path(path_data, style, layer_name, element_id)] *)
Definition add_path (w : SVGWriter) (path_data style : string) (layer_name element_id : option string)
  : SVGWriter :=
  let '(w', parent) := get_or_create w layer_name in
  add_to w' parent (WElem (svg_tag "path") (path_attrs path_data style element_id) []).

(** [add_rect(x, y, width, height, style, layer_name, element_id)] *)
Definition add_rect (w : SVGWriter) (x y width height : float) (style : string)
  (layer_name element_id : option string) : SVGWriter :=
  let '(w', parent) := get_or_create w layer_name in
  let attrs :=
    [("x", float_str x); ("y", float_str y); ("width", float_str width); ("height", float_str height)]%string
    ++ (if SVGParser.nonempty style then [("style", style)]%string else [])
    ++ (match element_id with
        | Some i => if SVGParser.nonempty i then [("id", i)]%string else []
        | None => []
        end) in
  add_to w' parent (WElem (svg_tag "rect") attrs []).

(** [add_element_from_lxml(element, layer_name)] *)
Definition add_element_from_lxml (w : SVGWriter) (element : node) (layer_name : option string)
  : result SVGWriter :=
  let '(Node _ tag attrs _) := element in
  if String.eqb tag "path" then
    Ok (add_path w (get_default attrs "d" EmptyString) (_build_style_string attrs)
           layer_name (get attrs "id"))
  else if String.eqb tag "rect" then
    let* x := Draw.float_attr attrs "x" in
    let* y := Draw.float_attr attrs "y" in
    let* width := Draw.float_attr attrs "width" in
    let* height := Draw.float_attr attrs "height" in
    Ok (add_rect w x y width height (_build_style_string attrs) layer_name (get attrs "id"))
  else Ok w.

Fixpoint add_elements (w : SVGWriter) (elements : list node) (layer_name : option string)
  : result SVGWriter :=
  match elements with
  | [] => Ok w
  | e :: r => let* w' := add_element_from_lxml w e layer_name in add_elements w' r layer_name
  end.

(** [copy_layer_to_new_svg(elements, viewbox, layer_name)] without saving. *)
Definition copy_layer_to_new_svg (elements : list node) (layer_name : string) : result SVGWriter :=
  let '(writer, _) := create_layer SVGWriter_new layer_name None in
  add_elements writer elements (Some layer_name).

(** The loop of [export_layers_to_svg(layer_names, output_path)];
    [extract] is [extract_elements(get_layer(name))]. *)
Fixpoint export_layers (w : SVGWriter) (extract : string -> result (list node))
  (layer_names : list string) : result SVGWriter :=
  match layer_names with
  | [] => Ok w
  | layer_name :: rest =>
      let* elements := extract layer_name in
      let* w' :=
        match elements with
        | [] => Ok w
        | _ :: _ =>
            let '(w1, _) := create_layer w layer_name None in
            add_elements w1 elements (Some layer_name)
        end in
      export_layers w' extract rest
  end.

Definition export_layers_to_svg (extract : string -> result (list node)) (layer_names : list string)
  : result SVGWriter :=
  export_layers SVGWriter_new extract layer_names.

End WriterState.

(** Observations of the written tree: an element's tag, its tag and
    attributes, and the local name of a source element. *)
Definition wtag (n : wnode) : string := let '(WElem t _ _) := n in t.
Definition wtop (n : wnode) : string * element := let '(WElem t a _) := n in (t, a).
Definition node_local (n : node) : string := let '(Node _ l _ _) := n in l.

(** The source elements [add_element_from_lxml] copies. *)
Definition copied (n : node) : bool :=
  String.eqb (node_local n) "path" || String.eqb (node_local n) "rect".

(** The attributes [create_layer(layer_name)] sets on its group. *)
Definition layer_attrs (layer_name : string) : element :=
  [("id", layer_id_of layer_name); (groupmode_key, "layer"); (label_key, layer_name)]%string.

End Writer.

(** ** api.py: SVGRenderer *)
Module Api.
Import Xml SVGParser Renderer.

(** The fields of an [SVGRenderer] the rendering path reads: the loaded
    root element, the requested DPI and the viewBox read at construction. *)
Record SVGRenderer := mkSVGRenderer {
  root : element;
  dpi : option float;
  vb : viewbox;
}.

(** [SVGRenderer(svg_path, dpi)] on a loaded document. *)
Definition SVGRenderer_init (root : element) (dpi : option float) : result SVGRenderer :=
  let* vb := get_viewbox root in
  Ok (mkSVGRenderer root dpi vb).

(** [_create_renderer()] *)
Definition _create_renderer (self : SVGRenderer) : result Renderer :=
  match dpi self with
  | Some d =>
      let* (width, height) := calculate_pixel_size (root self) d in
      let* scale := calculate_scale (root self) d in
      Renderer_new [PInt width; PInt height; PFloat scale]
  | None =>
      let '(_, _, width, height) := vb self in
      let* w := py_int width in
      let* h := py_int height in
      Renderer_new [PInt w; PInt h]
  end.

End Api.

Import Xml SVGParser Renderer Style Layer Draw Writer Api.

(** ** Documents used as concrete inputs *)

(** An A4 drawing in millimetres, as Inkscape writes it. *)
Definition a4_root : element :=
  [("width", "210mm"); ("height", "297mm"); ("viewBox", "0 0 210 297")]%string.

(** Two labelled layers, in document order. *)
Definition two_layers : list element :=
  [[(label_key, "Layer 1"); ("id", "layer1")];
   [(label_key, "Layer 2"); ("id", "layer2")]]%string.

(** The identifier [x" or "1"="1]. *)
Definition injected_id : string :=
  "x" ++ dq ++ " or " ++ dq ++ "1" ++ dq ++ "=" ++ dq ++ "1".

(** A path with neither fill nor stroke. *)
Definition unpainted_path : element := [("d", "M0 0 L10 10"); ("style", "fill:none;stroke:none")]%string.

(** A path with a fill and a stroke. *)
Definition painted_path : element := [("d", "M0 0 L10 10"); ("fill", "red"); ("stroke", "blue")]%string.

(** A rectangle with plain numeric geometry. *)
Definition sample_rect : element := [("x", "1"); ("y", "2"); ("width", "3"); ("height", "4")]%string.

(** The SVG namespace URI. *)
Definition svg_uri : string := "http://www.w3.org/2000/svg"%string.

(** A layer whose rectangle precedes a path nested in a group. *)
Definition sample_layer : node :=
  Node (Some svg_uri) "g" []
    [Node (Some svg_uri) "rect" [] [];
     Node (Some svg_uri) "g" [] [Node (Some svg_uri) "path" [("d", "M0 0")%string] []]].

(** A path, a circle and a rectangle, in that order. *)
Definition sample_nodes : list node :=
  [Node (Some svg_uri) "path" [("d", "M0 0 L1 1"); ("fill", "red")]%string [];
   Node (Some svg_uri) "circle" [("r", "2")]%string [];
   Node (Some svg_uri) "rect" [("x", "1"); ("width", "3"); ("height", "4")]%string []].

(** * Properties *)

(** ** Unit & viewport resolution *)

(** C1 (code_bug): in DPI mode [_create_renderer] passes three arguments
    to [Renderer], whose [__init__] takes two, so every DPI render raises
    [TypeError]; the legacy mode builds a renderer of the truncated viewBox
    size. *)
Theorem create_renderer_modes :
  (forall self d pw ph sc,
     dpi self = Some d ->
     calculate_pixel_size (root self) d = Ok (pw, ph) ->
     calculate_scale (root self) d = Ok sc ->
     exists msg, _create_renderer self = Err (TypeError msg))
  /\ (forall self x y w h wi hi,
        dpi self = None -> vb self = (x, y, w, h) ->
        py_int w = Ok wi -> py_int h = Ok hi ->
        _create_renderer self = Ok (mkRenderer (PInt wi) (PInt hi) false))
  /\ (exists r, SVGRenderer_init a4_root (Some 300%float) = Ok r
        /\ calculate_pixel_size a4_root 300 = Ok (2480, 3508)
        /\ _create_renderer r = Err (TypeError "Renderer.__init__() takes 3 positional arguments")).
Proof.
  split; [|split].
  - intros self d pw ph sc Hd Hp Hs.
    unfold _create_renderer. rewrite Hd, Hp. cbn. rewrite Hs. cbn. eauto.
  - intros self x y w h wi hi Hd Hv Hw Hh.
    unfold _create_renderer. rewrite Hd, Hv. cbn. rewrite Hw. cbn. rewrite Hh. reflexivity.
  - eexists. split; [reflexivity|]. split; vm_compute; reflexivity.
Qed.

Lemma create_renderer_modes_witness :
  dpi (mkSVGRenderer a4_root (Some 300%float) (0, 0, 210, 297)%float) = Some 300%float
  /\ exists msg, _create_renderer (mkSVGRenderer a4_root (Some 300%float) (0, 0, 210, 297)%float)
                 = Err (TypeError msg).
Proof.
  split; [reflexivity|].
  apply (proj1 create_renderer_modes _ 300%float 2480 3508 (float_of_Z 2480 / 210)%float);
    [reflexivity | vm_compute; reflexivity | vm_compute; reflexivity].
Defined.

(** C2: with a DPI, the pixel size is [round(dimension * inchesPerUnit[unit]
    * dpi)] with the fixed unit table, the scale is the pixel width over the
    viewBox width (1.0 for a zero width); a 210mm-wide A4 page at 300 dpi is
    2480 pixels wide. *)
Theorem calculate_pixel_size_spec :
  (forall (r : element) (d : float) x y w h,
     get_viewbox r = Ok (x, y, w, h) ->
     let ipu := inches_per_unit (get_document_unit r) in
     calculate_pixel_size r d =
       (let* pw := py_round (w * ipu * d)%float in
        let* ph := py_round (h * ipu * d)%float in
        Ok (pw, ph))
     /\ calculate_scale r d =
       (let* pw := py_round (w * ipu * d)%float in
        let* _ := py_round (h * ipu * d)%float in
        Ok (if (w =? 0)%float then 1%float else (float_of_Z pw / w)%float)))
  /\ (forall r, In (get_document_unit r) ["mm"; "cm"; "in"; "pt"; "pc"; "px"]%string)
  /\ unit_to_inches "px" = Some (1 / 96)%float
  /\ unit_to_inches "pt" = Some (1 / 72)%float
  /\ unit_to_inches "pc" = Some (1 / 6)%float
  /\ unit_to_inches "mm" = Some (1 / 25.4)%float
  /\ unit_to_inches "cm" = Some (1 / 2.54)%float
  /\ unit_to_inches "in" = Some 1%float
  /\ calculate_pixel_size a4_root 300 = Ok (2480, 3508).
Proof.
  split.
  - intros r d x y w h Hv ipu.
    unfold calculate_scale, calculate_pixel_size. rewrite Hv. cbn [bind].
    fold ipu.
    destruct (py_round (w * ipu * d)%float) as [pw|e]; cbn [bind]; [|split; reflexivity].
    destruct (py_round (h * ipu * d)%float) as [ph|e]; cbn [bind]; [|split; reflexivity].
    split; [reflexivity|]. destruct (w =? 0)%float; reflexivity.
  - split.
    + intro r. unfold get_document_unit.
      generalize (chars (get_default r "width" EmptyString)) as l. intro l.
      cbn [first_suffix].
      repeat match goal with |- context [if ?b then _ else _] => destruct b end;
        cbn; tauto.
    + repeat split; vm_compute; reflexivity.
Qed.

Lemma calculate_pixel_size_spec_witness :
  get_viewbox a4_root = Ok (0, 0, 210, 297)%float
  /\ calculate_scale a4_root 300 = Ok (float_of_Z 2480 / 210)%float.
Proof.
  split; [reflexivity|].
  destruct (proj1 calculate_pixel_size_spec a4_root 300%float 0%float 0%float 210%float 297%float eq_refl) as [_ Hs].
  rewrite Hs. vm_compute. reflexivity.
Defined.

(** ** Path data interpreter *)

(** Tokens of the path tokenizer. *)

Lemma span_digits_spec l d r :
  span_digits l = (d, r) ->
  l = d ++ r /\ Forall (fun c => is_digit c = true) d
  /\ match r with c :: _ => is_digit c = false | [] => True end.
Proof.
  revert d r. induction l as [|c l IH]; intros d r H; cbn in H.
  - injection H as <- <-. auto.
  - destruct (is_digit c) eqn:Ec.
    + destruct (span_digits l) as [d' r'] eqn:E. injection H as <- <-.
      destruct (IH _ _ eq_refl) as (-> & Hd & Hr). cbn. auto.
    + injection H as <- <-. cbn. auto.
Qed.

(** The head of what follows a digit run in a token. *)

Lemma digitpart_aux_digits d rest acc :
  Forall (fun c => is_digit c = true) d -> ends_run rest ->
  exists acc', digitpart_aux (d ++ rest) acc = (acc', rest).
Proof.
  revert acc. induction d as [|c d IH]; intros acc Hd Hr; cbn.
  - destruct rest as [|c r]; cbn; [exists acc; reflexivity|]. unfold ends_run in Hr. destruct Hr as [Hc Hu].
    unfold is_digit in Hc. destruct (digit_val c); [discriminate|].
    destruct (ascii_dec c "_"); [contradiction|]. eauto.
  - apply Forall_cons_iff in Hd as [Hc Hd']. unfold is_digit in Hc.
    destruct (digit_val c); [|discriminate]. apply IH; assumption.
Qed.

Lemma digitpart_digits d rest :
  d <> [] -> Forall (fun c => is_digit c = true) d -> ends_run rest ->
  exists ds, digitpart (d ++ rest) = Some (ds, rest).
Proof.
  destruct d as [|c d]; intros Hne Hd Hr; [contradiction|].
  apply Forall_cons_iff in Hd as [Hc Hd']. cbn. unfold is_digit in Hc.
  destruct (digit_val c); [|discriminate].
  destruct (digitpart_aux_digits d rest [z] Hd' Hr) as [acc ->]. eauto.
Qed.


Lemma exp_head_run ex : exp_head ex -> ends_run ex.
Proof. intros [-> | (e & t & -> & [-> | ->])]; cbn; auto; split; (reflexivity || discriminate). Qed.

(** Characters a number token is made of. *)

Lemma digit_facts h :
  is_digit h = true -> is_space h = false /\ lower_char h = h /\ h <> "i"%char /\ h <> "n"%char
                       /\ h <> "-"%char /\ h <> "+"%char /\ h <> "."%char.
Proof.
  destruct h as [[] [] [] [] [] [] [] []]; cbn; intro H; try discriminate H;
    repeat split; discriminate.
Qed.

Lemma mant_int d ex :
  d <> [] -> Forall (fun c => is_digit c = true) d -> exp_head ex ->
  exists a b, parse_mantissa (d ++ ex) = Some (a, b, ex).
Proof.
  intros Hne Hd Hex. unfold parse_mantissa.
  destruct (digitpart_digits d ex Hne Hd (exp_head_run ex Hex)) as [ds ->].
  destruct Hex as [-> | (e & t & -> & [-> | ->])]; cbn; eauto.
Qed.

Lemma mant_frac d1 d2 ex :
  Forall (fun c => is_digit c = true) d1 ->
  d2 <> [] -> Forall (fun c => is_digit c = true) d2 -> exp_head ex ->
  exists a b, parse_mantissa ((d1 ++ "."%char :: d2) ++ ex) = Some (a, b, ex).
Proof.
  intros Hd1 Hne Hd2 Hex. rewrite <- app_assoc. cbn [app]. unfold parse_mantissa.
  destruct d1 as [|h t].
  - cbn [app]. replace (digitpart ("."%char :: d2 ++ ex)) with (@None (list Z * list ascii))
      by reflexivity.
    cbn. destruct (digitpart_digits d2 ex Hne Hd2 (exp_head_run ex Hex)) as [ds ->]. eauto.
  - destruct (digitpart_digits (h :: t) ("."%char :: d2 ++ ex)) as [ip ->].
    + discriminate.
    + exact Hd1.
    + cbn. split; [reflexivity | discriminate].
    + cbn. destruct (digitpart_digits d2 ex Hne Hd2 (exp_head_run ex Hex)) as [ds ->]. eauto.
Qed.

Ltac num_tac := unfold num_char; repeat (first [left; reflexivity | right]); reflexivity.

Lemma digits_num_char d : Forall (fun c => is_digit c = true) d -> Forall num_char d.
Proof. apply Forall_impl. intros c H. left. exact H. Qed.

Lemma match_unsigned_ok r0 m r1 :
  match_unsigned r0 = Some (m, r1) ->
  r0 = m ++ r1
  /\ (exists h t, m = h :: t /\ (is_digit h = true \/ h = "."%char))
  /\ Forall num_char m
  /\ forall ex, exp_head ex -> exists a b, parse_mantissa (m ++ ex) = Some (a, b, ex).
Proof.
  unfold match_unsigned. destruct (span_digits r0) as [d1 r1'] eqn:Hs.
  apply span_digits_spec in Hs as (-> & Hd1 & Hr1').
  assert (Hint : forall r, match d1 with [] => None | _ => Some (d1, r) end = Some (m, r1) ->
            d1 ++ r = m ++ r1
            /\ (exists h t, m = h :: t /\ (is_digit h = true \/ h = "."%char))
            /\ Forall num_char m
            /\ forall ex, exp_head ex -> exists a b, parse_mantissa (m ++ ex) = Some (a, b, ex)).
  { intros r H. destruct d1 as [|h t]; [discriminate|]. injection H as <- <-.
    split; [reflexivity|]. split.
    - exists h, t. split; [reflexivity|]. left. apply Forall_cons_iff in Hd1. apply Hd1.
    - split; [apply digits_num_char; exact Hd1|]. intros ex Hex. apply mant_int; auto. discriminate. }
  destruct r1' as [|c [|c' r2]]; [apply Hint | apply Hint|].
  destruct (Ascii.eqb c "." && is_digit c') eqn:Eq; [|apply Hint].
  apply andb_true_iff in Eq as [Ec Ec']. apply Ascii.eqb_eq in Ec. subst c.
  destruct (span_digits (c' :: r2)) as [d2 r3] eqn:Hs2.
  apply span_digits_spec in Hs2 as (Heq2 & Hd2 & Hr3).
  intro H. injection H as <- <-.
  assert (Hne : d2 <> []).
  { intro E. subst d2. cbn in Heq2. subst r3. rewrite Ec' in Hr3. discriminate. }
  split; [rewrite Heq2, <- app_assoc; reflexivity|]. split.
  - destruct d1 as [|h t]; cbn.
    + eexists _, _. split; [reflexivity|]. right. reflexivity.
    + eexists _, _. split; [reflexivity|]. left. apply Forall_cons_iff in Hd1. apply Hd1.
  - split.
    + apply Forall_app. split; [apply digits_num_char; exact Hd1|].
      constructor; [right; left; reflexivity | apply digits_num_char; exact Hd2].
    + intros ex Hex. apply mant_frac; assumption.
Qed.

Lemma parse_sign_digit d t : is_digit d = true -> parse_sign (d :: t) = (false, d :: t).
Proof. destruct d as [[] [] [] [] [] [] [] []]; cbn; intro H; (discriminate || reflexivity). Qed.

Lemma match_exponent_ok r1 ex r2 :
  match_exponent r1 = (ex, r2) ->
  r1 = ex ++ r2 /\ exp_head ex /\ Forall num_char ex /\ exists a, parse_exponent ex = Some a.
Proof.
  unfold match_exponent. destruct r1 as [|e r].
  { intro H. injection H as <- <-. split; [reflexivity|]. split; [left; reflexivity|].
    split; [constructor | exists 0; reflexivity]. }
  destruct (Ascii.eqb e "e" || Ascii.eqb e "E") eqn:Ee.
  2:{ intro H. injection H as <- <-. split; [reflexivity|]. split; [left; reflexivity|].
      split; [constructor | exists 0; reflexivity]. }
  assert (He : e = "e"%char \/ e = "E"%char).
  { apply orb_true_iff in Ee as [E|E]; apply Ascii.eqb_eq in E; auto. }
  assert (Hexp : forall sg ds r',
            (sg = [] \/ sg = ["-"%char] \/ sg = ["+"%char]) ->
            span_digits r' = (ds, r2) -> ds <> [] ->
            e :: r = e :: sg ++ r' ->
            e :: r = (e :: sg ++ ds) ++ r2 /\ exp_head (e :: sg ++ ds)
            /\ Forall num_char (e :: sg ++ ds) /\ exists a, parse_exponent (e :: sg ++ ds) = Some a).
  { intros sg ds r' Hsg Hs Hne Hr. apply span_digits_spec in Hs as (-> & Hds & _).
    split; [rewrite Hr; cbn [app]; rewrite <- app_assoc; reflexivity|].
    split; [right; exists e, (sg ++ ds); auto|].
    split.
    - constructor; [destruct He as [-> | ->]; num_tac|].
      apply Forall_app. split; [|apply digits_num_char; exact Hds].
      destruct Hsg as [-> | [-> | ->]]; repeat constructor; num_tac.
    - destruct (digitpart_digits ds [] Hne Hds I) as [x Hx]. rewrite app_nil_r in Hx.
      assert (Hps : exists neg, parse_sign (sg ++ ds) = (neg, ds)).
      { destruct Hsg as [-> | [-> | ->]]; cbn [app].
        - destruct ds as [|d ds']; [contradiction|].
          apply Forall_cons_iff in Hds as [Hd _]. rewrite (parse_sign_digit d ds' Hd). eauto.
        - eexists; reflexivity.
        - eexists; reflexivity. }
      destruct Hps as [neg Hps].
      assert (Hl : lower_char e = "e"%char) by (destruct He as [-> | ->]; reflexivity).
      cbn [parse_exponent]. rewrite Hl. cbn [ascii_dec]. 
      destruct (ascii_dec "e" "e") as [_|n]; [|congruence].
      rewrite Hps, Hx. eexists; reflexivity. }
  destruct r as [|c r''].
  - cbn. intro H. injection H as <- <-. split; [reflexivity|]. split; [left; reflexivity|].
    split; [constructor | exists 0; reflexivity].
  - destruct (Ascii.eqb c "-" || Ascii.eqb c "+") eqn:Ec.
    + destruct (span_digits r'') as [ds r3] eqn:Hs. destruct ds as [|d ds'].
      * intro H. injection H as <- <-. split; [reflexivity|]. split; [left; reflexivity|].
        split; [constructor | exists 0; reflexivity].
      * intro H. injection H as <- ->.
        assert (Hc : c = "-"%char \/ c = "+"%char).
        { apply orb_true_iff in Ec as [E|E]; apply Ascii.eqb_eq in E; auto. }
        apply (Hexp [c] (d :: ds') r''); [destruct Hc as [-> | ->]; auto | exact Hs | discriminate | reflexivity].
    + destruct (span_digits (c :: r'')) as [ds r3] eqn:Hs. destruct ds as [|d ds'].
      * intro H. injection H as <- <-. split; [reflexivity|]. split; [left; reflexivity|].
        split; [constructor | exists 0; reflexivity].
      * intro H. injection H as <- ->.
        apply (Hexp [] (d :: ds') (c :: r'')); [auto | exact Hs | discriminate | reflexivity].
Qed.

Lemma num_char_facts c : num_char c -> is_space c = false /\ c <> "i"%char /\ c <> "n"%char.
Proof.
  intros [H | [-> | [-> | [-> | [-> | ->]]]]];
    [destruct (digit_facts c H) as (? & _ & ? & ? & _); auto | repeat split; (reflexivity || discriminate) ..].
Qed.

Lemma strip_num l : Forall num_char l -> strip l = l.
Proof.
  intro H. assert (Hs : Forall (fun c => is_space c = false) l).
  { revert H. apply Forall_impl. intros c Hc. apply num_char_facts. exact Hc. }
  assert (Hl : forall m, Forall (fun c => is_space c = false) m -> lstrip m = m).
  { intros [|c m] Hm; [reflexivity|]. apply Forall_cons_iff in Hm as [Hc _]. cbn. rewrite Hc. reflexivity. }
  unfold strip. rewrite (Hl l Hs), (Hl (rev l)) by (apply Forall_rev; exact Hs). apply rev_involutive.
Qed.

Lemma py_float_number sg m ex :
  (sg = [] \/ sg = ["-"%char] \/ sg = ["+"%char]) ->
  (exists h t, m = h :: t /\ (is_digit h = true \/ h = "."%char)) ->
  Forall num_char m ->
  (exists a b, parse_mantissa (m ++ ex) = Some (a, b, ex)) ->
  Forall num_char ex ->
  (exists x, parse_exponent ex = Some x) ->
  py_float (sg ++ m ++ ex) <> None.
Proof.
  intros Hsg (h & t & -> & Hh) Hm (a & b & Hma) Hex (x & Hx).
  assert (Hhf : lower_char h = h /\ h <> "i"%char /\ h <> "n"%char /\ h <> "-"%char /\ h <> "+"%char).
  { destruct Hh as [Hd | ->]; [destruct (digit_facts h Hd) as (_ & ? & ? & ? & ? & ? & _); auto|].
    repeat split; (reflexivity || discriminate). }
  destruct Hhf as (Hl & Hi & Hn & Hm1 & Hp1).
  assert (Hps : exists neg, parse_sign (sg ++ (h :: t) ++ ex) = (neg, (h :: t) ++ ex)).
  { destruct Hsg as [-> | [-> | ->]]; [|eexists; reflexivity | eexists; reflexivity].
    cbn [app parse_sign]. exists false.
    destruct (ascii_dec h "-"); [contradiction|]. destruct (ascii_dec h "+"); [contradiction|]. reflexivity. }
  destruct Hps as [neg Hps].
  unfold py_float. rewrite strip_num.
  2:{ apply Forall_app. split; [destruct Hsg as [-> | [-> | ->]]; repeat constructor; num_tac|].
      apply Forall_app. split; assumption. }
  rewrite Hps. cbn [app lower map]. rewrite Hl.
  destruct (list_eq_dec ascii_dec (h :: map lower_char (t ++ ex)) (chars "inf")) as [E|_].
  { injection E as E _. contradiction. }
  destruct (list_eq_dec ascii_dec (h :: map lower_char (t ++ ex)) (chars "infinity")) as [E|_].
  { injection E as E _. contradiction. }
  destruct (list_eq_dec ascii_dec (h :: map lower_char (t ++ ex)) (chars "nan")) as [E|_].
  { injection E as E _. contradiction. }
  change ((h :: t) ++ ex) with ((h :: t) ++ ex) in Hma. cbn [app] in Hma. rewrite Hma, Hx. discriminate.
Qed.

Lemma py_in_head h r hay : py_in (h :: r) hay = true -> In h hay.
Proof.
  induction hay as [|c hay IH]; [discriminate|]. cbn [py_in is_prefix].
  intro H. apply orb_true_iff in H as [H|H].
  - apply andb_true_iff in H as [H _]. apply Ascii.eqb_eq in H. subst. left. reflexivity.
  - right. apply IH. exact H.
Qed.

Lemma head_not_letter h r :
  (is_digit h = true \/ h = "."%char \/ h = "-"%char \/ h = "+"%char) ->
  py_in (h :: r) (chars "MmLlCcZz") = false.
Proof.
  intro Hh. destruct (py_in (h :: r) (chars "MmLlCcZz")) eqn:E; [|reflexivity].
  apply py_in_head in E. cbn in E.
  repeat (destruct E as [<- | E]; [destruct Hh as [Hh | [Hh | [Hh | Hh]]]; discriminate Hh|]).
  destruct E.
Qed.

Lemma match_number_ok l tok rest : match_number l = Some (tok, rest) -> number_tok tok.
Proof.
  unfold match_number.
  assert (Hgen : forall sg r0, (sg = [] \/ sg = ["-"%char] \/ sg = ["+"%char]) ->
            match match_unsigned r0 with
            | Some (m, r1) => let '(ex, r2) := match_exponent r1 in Some (sg ++ m ++ ex, r2)
            | None => None
            end = Some (tok, rest) -> number_tok tok).
  { intros sg r0 Hsg. destruct (match_unsigned r0) as [[m r1]|] eqn:Hu; [|discriminate].
    destruct (match_exponent r1) as [ex r2] eqn:He. intro H. injection H as <- <-.
    apply match_unsigned_ok in Hu as (_ & Hh & Hm & Hma).
    apply match_exponent_ok in He as (_ & Hexh & Hex & Hx).
    split; [apply py_float_number; auto|].
    destruct Hh as (h & t & -> & Hh).
    destruct Hsg as [-> | [-> | ->]]; cbn [app]; apply head_not_letter; tauto. }
  destruct l as [|c r]; [apply Hgen; auto|].
  destruct (Ascii.eqb c "-" || Ascii.eqb c "+") eqn:Ec; apply Hgen; auto.
  apply orb_true_iff in Ec as [E|E]; apply Ascii.eqb_eq in E; subst; auto.
Qed.

Lemma match_token_ok l tok rest : match_token l = Some (tok, rest) -> tok_ok tok.
Proof.
  destruct l as [|c r]; [discriminate|]. cbn [match_token].
  destruct (is_cmd_letter c) eqn:Ec.
  - intro H. injection H as <- _. left. exists c. auto.
  - intro H. right. exact (match_number_ok _ _ _ H).
Qed.

Lemma findall_ok fuel l : Forall tok_ok (findall fuel l).
Proof.
  revert l. induction fuel as [|f IH]; intro l; cbn; [constructor|].
  destruct l as [|c r]; [constructor|].
  destruct (match_token (c :: r)) as [[tok rest]|] eqn:E; [|apply IH].
  constructor; [exact (match_token_ok _ _ _ E) | apply IH].
Qed.

Lemma tokenize_ok path_data : Forall tok_ok (tokenize path_data).
Proof. apply findall_ok. Qed.

Lemma letter_facts t : letter_tok t ->
  py_float t = None /\ py_in t (chars "MmLlCcZz") = true.
Proof.
  intros (c & -> & Hc). unfold is_cmd_letter in Hc.
  apply existsb_exists in Hc as (c' & Hin & Hc).
  destruct (ascii_dec c c') as [<-|]; [|discriminate].
  cbn in Hin. repeat (destruct Hin as [<- | Hin]; [split; vm_compute; reflexivity|]).
  destruct Hin.
Qed.

Ltac step_cases_tac :=
  repeat (cbn [bind] in *;
    match goal with
    | |- context [if ?b then _ else _] => destruct b
    | |- context [float_of_str ?t] =>
        let E := fresh "E" in destruct (float_of_str t) eqn:E
    | |- context [float_at ?ts ?n] =>
        let E := fresh "E" in destruct (float_at ts n) eqn:E
    end).

(** An iteration that completes advances the position. *)
Lemma step_cases tokens st token :
  match step tokens st token with
  | Ok st' => (i st < i st')%nat
  | Err e => True
  end.
Proof.
  destruct st as [k cx cy cmd out]. unfold step. cbn [i].
  step_cases_tac; first [exact I | cbn; lia].
Qed.

Lemma nth_tok tokens k t : Forall tok_ok tokens -> nth_error tokens k = Some t -> tok_ok t.
Proof.
  intros Hwf Hn. rewrite Forall_forall in Hwf. apply Hwf. eapply nth_error_In. exact Hn.
Qed.

Lemma float_at_ok_num tokens k x :
  Forall tok_ok tokens -> float_at tokens k = Ok x ->
  exists t, nth_error tokens k = Some t /\ number_tok t.
Proof.
  intros Hwf. unfold float_at, index. destruct (nth_error tokens k) as [t|] eqn:Hn; cbn [bind];
    [|discriminate].
  unfold float_of_str. destruct (py_float t) eqn:Hp; [|discriminate]. intros _.
  exists t. split; [reflexivity|].
  destruct (nth_tok _ _ _ Hwf Hn) as [Hl | Hnum]; [|exact Hnum].
  apply letter_facts in Hl as [Hl _]. congruence.
Qed.

Lemma float_at_err_cases tokens k e :
  Forall tok_ok tokens -> float_at tokens k = Err e ->
  (nth_error tokens k = None /\ e = IndexError k)
  \/ (exists t m, nth_error tokens k = Some t /\ letter_tok t /\ e = ValueError m).
Proof.
  intros Hwf. unfold float_at, index. destruct (nth_error tokens k) as [t|] eqn:Hn; cbn [bind].
  - unfold float_of_str. destruct (py_float t) eqn:Hp; [discriminate|].
    intro H. injection H as <-. right. exists t. eexists. split; [reflexivity|]. split; [|reflexivity].
    destruct (nth_tok _ _ _ Hwf Hn) as [Hl | [Hnum _]]; [exact Hl | contradiction].
  - intro H. injection H as <-. left. auto.
Qed.

Lemma read_ok tokens k n j :
  numbers_between tokens k n -> (0 < j < n)%nat -> (k + j < List.length tokens)%nat ->
  exists x, float_at tokens (k + j) = Ok x.
Proof.
  intros Hnb Hj Hl. apply nth_error_Some in Hl.
  destruct (nth_error tokens (k + j)) as [t|] eqn:Hn; [|contradiction].
  destruct (Hnb j t Hj Hn) as [Hp _].
  unfold float_at, index. rewrite Hn. cbn [bind]. unfold float_of_str.
  destruct (py_float t); [eauto | contradiction].
Qed.

Lemma read_past tokens k :
  (List.length tokens <= k)%nat -> float_at tokens k = Err (IndexError k).
Proof.
  intro H. unfold float_at, index. apply nth_error_None in H. rewrite H. reflexivity.
Qed.

Lemma read_letter tokens k t :
  nth_error tokens k = Some t -> letter_tok t -> exists m, float_at tokens k = Err (ValueError m).
Proof.
  intros Hn Hl. apply letter_facts in Hl as [Hp _].
  unfold float_at, index. rewrite Hn. cbn [bind]. unfold float_of_str. rewrite Hp. eauto.
Qed.

(** The first failing read of a coordinate slot. *)
Lemma fail_at tokens k n j e :
  Forall tok_ok tokens -> (k < List.length tokens)%nat -> (0 < j < n)%nat ->
  (forall j', (0 < j' < j)%nat -> exists x, float_at tokens (k + j') = Ok x) ->
  float_at tokens (k + j) = Err e ->
  (e = IndexError (List.length tokens) /\ runs_out tokens k n)
  \/ (exists m, e = ValueError m /\ letter_in_slot tokens k n).
Proof.
  intros Hwf Hk Hj Hprev He.
  assert (Hnb : numbers_between tokens k j).
  { intros j' t Hj' Hn. destruct (Hprev j' Hj') as [x Hx].
    destruct (float_at_ok_num _ _ _ Hwf Hx) as (t' & Hn' & Hnum). congruence. }
  apply (float_at_err_cases _ _ _ Hwf) in He as [[Hn ->] | (t & m & Hn & Hl & ->)].
  - left. apply nth_error_None in Hn.
    assert (Hlen : List.length tokens = (k + j)%nat).
    { destruct (Nat.eq_dec j 1) as [->|Hj1]; [lia|].
      destruct (Hprev (j - 1)%nat ltac:(lia)) as [x Hx].
      destruct (float_at_ok_num _ _ _ Hwf Hx) as (t' & Hn' & _).
      assert (k + (j - 1) < List.length tokens)%nat by (apply nth_error_Some; congruence). lia. }
    split; [rewrite Hlen; reflexivity|]. split; [lia|].
    intros j' t Hj' Hn'. destruct (Nat.lt_ge_cases j' j) as [Hlt|Hge].
    + exact (Hnb j' t ltac:(lia) Hn').
    + assert (List.length tokens <= k + j')%nat by lia.
      apply nth_error_None in H. congruence.
  - right. exists m. split; [reflexivity|]. exists j, t. split; [lia|]. split; [exact Hn|]. split; [exact Hl|exact Hnb].
Qed.

Ltac failing_reads Hwf Hk H :=
  repeat match type of H with
  | bind (float_at ?ts (?k + ?j)) _ = Err _ =>
      let E := fresh "E" in
      destruct (float_at ts (k + j)) eqn:E; cbn [bind] in H;
      [| injection H as <-; eapply (fail_at ts k _ j _ Hwf Hk); [cbv beta iota; lia| |exact E];
         let j' := fresh "j'" in let Hj' := fresh "Hj'" in
         intros j' Hj';
         first [ exfalso; lia
               | destruct (Nat.eq_dec j' 1) as [->|?]; [first [eexists; eassumption | exfalso; lia]|];
                 destruct (Nat.eq_dec j' 2) as [->|?]; [first [eexists; eassumption | exfalso; lia]|];
                 destruct (Nat.eq_dec j' 3) as [->|?]; [first [eexists; eassumption | exfalso; lia]|];
                 destruct (Nat.eq_dec j' 4) as [->|?]; [first [eexists; eassumption | exfalso; lia]|];
                 exfalso; lia ] ]
  end.

Lemma step_err tokens st t e :
  Forall tok_ok tokens -> nth_error tokens (i st) = Some t ->
  step tokens st t = Err e -> path_failure tokens st e.
Proof.
  intros Hwf Hn H. destruct st as [k cx cy cmd out]. cbn [i] in Hn.
  assert (Hk : (k < List.length tokens)%nat) by (apply nth_error_Some; congruence).
  unfold path_failure, coord_count. cbn [i current_command].
  destruct (nth_tok _ _ _ Hwf Hn) as [Hl | [Hp Hpy]].
  - apply letter_facts in Hl as [_ Hpy]. unfold step in H. rewrite Hpy in H. discriminate.
  - unfold step in H. rewrite Hpy in H. unfold float_of_str in H.
    destruct (py_float t) as [x|]; [|contradiction]. cbn [bind] in H.
    destruct (is_cmd cmd "M" || is_cmd cmd "m").
    { failing_reads Hwf Hk H. destruct (if is_cmd cmd "M" then _ else _); cbv beta iota in H; discriminate. }
    destruct (is_cmd cmd "L" || is_cmd cmd "l").
    { failing_reads Hwf Hk H. destruct (if is_cmd cmd "L" then _ else _); cbv beta iota in H; discriminate. }
    destruct (is_cmd cmd "C" || is_cmd cmd "c").
    { failing_reads Hwf Hk H. destruct (is_cmd cmd "C"); discriminate. }
    destruct (is_cmd cmd "Z" || is_cmd cmd "z"); discriminate.
Qed.

Ltac reads_out Hnb Hkn :=
  repeat match goal with
  | |- bind (float_at ?ts (?k + ?j)) _ = _ =>
      let Hlt := fresh "Hlt" in let x := fresh "x" in let Ex := fresh "Ex" in
      destruct (Nat.lt_ge_cases (k + j) (List.length ts)) as [Hlt|Hlt];
      [ destruct (read_ok ts k _ j Hnb ltac:(cbv beta iota in Hkn |- *; lia) Hlt) as [x Ex];
        rewrite Ex; cbn [bind]
      | rewrite (read_past ts (k + j) Hlt); cbn [bind]; do 2 f_equal; lia ]
  end.

Lemma step_runs_out tokens st t :
  nth_error tokens (i st) = Some t -> number_tok t ->
  runs_out tokens (i st) (coord_count (current_command st)) ->
  step tokens st t = Err (IndexError (List.length tokens)).
Proof.
  intros Hn [Hp Hpy] [Hkn Hnb]. destruct st as [k cx cy cmd out]. cbn [i current_command] in *.
  assert (Hk : (k < List.length tokens)%nat) by (apply nth_error_Some; congruence).
  unfold step. rewrite Hpy. unfold float_of_str. destruct (py_float t) as [x0|]; [|contradiction].
  cbn [bind]. unfold coord_count in Hkn, Hnb.
  destruct (is_cmd cmd "M" || is_cmd cmd "m").
  { reads_out Hnb Hkn. exfalso. cbv beta iota in Hkn. lia. }
  destruct (is_cmd cmd "L" || is_cmd cmd "l").
  { reads_out Hnb Hkn. exfalso. cbv beta iota in Hkn. lia. }
  destruct (is_cmd cmd "C" || is_cmd cmd "c").
  { reads_out Hnb Hkn. exfalso. cbv beta iota in Hkn. lia. }
  exfalso. destruct (is_cmd cmd "Z" || is_cmd cmd "z"); lia.
Qed.

Ltac reads_letter Hnb Hjn Hnj Hl :=
  repeat match goal with
  | |- context [float_at ?ts (?k + ?j')] =>
      match type of Hnj with nth_error _ (_ + ?j) = Some ?tj =>
      let Hlt := fresh "Hlt" in let x := fresh "x" in let Ex := fresh "Ex" in
      destruct (Nat.lt_trichotomy j' j) as [Hlt|[Hlt|Hlt]];
      [ destruct (read_ok ts k j j' Hnb ltac:(lia)
                    ltac:(assert (k + j < List.length ts)%nat
                            by (apply nth_error_Some; congruence); lia)) as [x Ex];
        rewrite Ex; cbn [bind]
      | subst j; destruct (read_letter ts _ tj Hnj Hl) as [m Em];
        rewrite Em; exists m; reflexivity
      | exfalso; lia ]
      end
  end.

Lemma step_letter_slot tokens st t :
  nth_error tokens (i st) = Some t -> number_tok t ->
  letter_in_slot tokens (i st) (coord_count (current_command st)) ->
  exists m, step tokens st t = Err (ValueError m).
Proof.
  intros Hn [Hp Hpy] (j & tj & Hjn & Hnj & Hl & Hnb). destruct st as [k cx cy cmd out].
  cbn [i current_command] in *.
  unfold step. rewrite Hpy. unfold float_of_str. destruct (py_float t) as [x0|]; [|contradiction].
  cbn [bind]. unfold coord_count in Hjn.
  destruct (is_cmd cmd "M" || is_cmd cmd "m").
  { cbv beta iota in Hjn. reads_letter Hnb Hjn Hnj Hl; exfalso; lia. }
  destruct (is_cmd cmd "L" || is_cmd cmd "l").
  { cbv beta iota in Hjn. reads_letter Hnb Hjn Hnj Hl; exfalso; lia. }
  destruct (is_cmd cmd "C" || is_cmd cmd "c").
  { cbv beta iota in Hjn. reads_letter Hnb Hjn Hnj Hl; exfalso; lia. }
  exfalso. destruct (is_cmd cmd "Z" || is_cmd cmd "z"); lia.
Qed.

Lemma step_emits tokens st t :
  match step tokens st t with
  | Ok st' => exists l, emitted st' = emitted st ++ l
  | Err _ => True
  end.
Proof.
  destruct st as [k cx cy cmd out]. unfold step. cbn [emitted].
  step_cases_tac; first [exact I | eexists; reflexivity | exists []; symmetry; apply app_nil_r].
Qed.

Lemma reaches_prefix tokens s1 s2 :
  reaches tokens s1 s2 -> exists l, emitted s2 = emitted s1 ++ l.
Proof.
  induction 1 as [st | st t st1 st2 Hn Hs _ (l & IH)].
  - exists []. symmetry. apply app_nil_r.
  - pose proof (step_emits tokens st t) as He. rewrite Hs in He. destruct He as (l' & He).
    exists (l' ++ l). rewrite IH, He. symmetry. apply app_assoc.
Qed.

Lemma loop_spec fuel tokens st :
  (List.length tokens - i st <= fuel)%nat ->
  let '(st', err) := loop fuel tokens st in
  reaches tokens st st'
  /\ match err with
     | None => (List.length tokens <= i st')%nat
     | Some e => exists t, nth_error tokens (i st') = Some t /\ step tokens st' t = Err e
     end.
Proof.
  revert st. induction fuel as [|f IH]; intros st Hf; cbn [loop].
  - split; [constructor | lia].
  - destruct (nth_error tokens (i st)) as [token|] eqn:Hn.
    + pose proof (step_cases tokens st token) as Hs.
      destruct (step tokens st token) as [st'|e] eqn:Hst.
      * assert (i st < List.length tokens)%nat by (apply nth_error_Some; congruence).
        specialize (IH st' ltac:(lia)).
        destruct (loop f tokens st') as [st'' err]. destruct IH as [Hr IH].
        split; [eapply reaches_step; eassumption | exact IH].
      * split; [constructor|]. eauto.
    + split; [constructor|]. apply nth_error_None. assumption.
Qed.

(** C3 (corrected): interpreting a path string tokenizes it into command
    letters and numbers, and runs iterations from the initial cursor that
    each append to the issued primitives; the primitives left on the context
    are those of the last cursor reached.  The loop either consumes the
    whole token list, or stops on an iteration that raises: an [IndexError]
    on [tokens[len(tokens)]] when the active command's coordinates run out,
    or the [ValueError] of [float()] on a command letter in a coordinate
    slot.  Conversely every iteration on a number token whose coordinates
    run out raises that [IndexError], and every one with a letter in a
    coordinate slot raises [ValueError]: no bounds check precedes the
    reads. *)
Theorem parse_path_data_outcomes (path_data : string) :
  let tokens := tokenize path_data in
  let '(st, err) := _parse_path_data path_data in
  Forall tok_ok tokens
  /\ reaches tokens cursor0 st
  /\ path_prims path_data = emitted st
  /\ (forall s1 s2, reaches tokens s1 s2 -> exists l, emitted s2 = emitted s1 ++ l)
  /\ match err with
     | None => (List.length tokens <= i st)%nat
     | Some e => exists t, nth_error tokens (i st) = Some t /\ step tokens st t = Err e
                           /\ path_failure tokens st e
     end
  /\ (forall s t, nth_error tokens (i s) = Some t -> number_tok t ->
        (runs_out tokens (i s) (coord_count (current_command s)) ->
         step tokens s t = Err (IndexError (List.length tokens)))
        /\ (letter_in_slot tokens (i s) (coord_count (current_command s)) ->
            exists m, step tokens s t = Err (ValueError m))).
Proof.
  cbn zeta. unfold path_prims, _parse_path_data.
  pose proof (tokenize_ok path_data) as Hwf.
  pose proof (loop_spec (List.length (tokenize path_data)) (tokenize path_data) cursor0
                ltac:(cbn [i cursor0]; lia)) as H.
  destruct (loop _ _ cursor0) as [st err]. destruct H as [Hr H].
  split; [exact Hwf|]. split; [exact Hr|]. split; [reflexivity|].
  split; [apply reaches_prefix|]. split.
  - destruct err as [e|]; [|exact H].
    destruct H as (t & Hn & Hs). exists t. split; [exact Hn|]. split; [exact Hs|].
    eapply step_err; eassumption.
  - intros s t Hn Ht. split.
    + apply step_runs_out; assumption.
    + apply step_letter_slot; assumption.
Qed.

(** C3 counterexample: on ["M1"] the interpreter reads [tokens[2]] of a
    two-token list and fails with Python's [IndexError]. *)
Lemma parse_path_data_reads_past_end :
  tokenize "M1" = [chars "M"; chars "1"]
  /\ snd (_parse_path_data "M1") = Some (IndexError 2).
Proof. split; vm_compute; reflexivity. Qed.

Lemma parse_path_data_outcomes_witness :
  step (tokenize "M0 0 L1 1 L2") (mkCursor 7 1 1 (Some (chars "L")) [MoveTo 0 0; LineTo 1 1])
       (chars "2")
  = Err (IndexError 8).
Proof.
  pose proof (parse_path_data_outcomes "M0 0 L1 1 L2") as H. cbv zeta in H.
  destruct (_parse_path_data "M0 0 L1 1 L2") as [st err].
  destruct H as (_ & _ & _ & _ & _ & H).
  refine (proj1 (H (mkCursor 7 1 1 (Some (chars "L")) [MoveTo 0 0; LineTo 1 1]) (chars "2")
                   ltac:(vm_compute; reflexivity) _) _).
  - split; [vm_compute; discriminate | vm_compute; reflexivity].
  - split; [vm_compute; lia|].
    intros j t0 Hj. cbn [i]. replace j with 1%nat by (vm_compute in Hj; lia).
    vm_compute. discriminate.
Defined.

(** C4 (code_bug): after the first pair under [M] ([m]) the active command
    is [L] ([l]), and a pair under [L] ([l]) issues a [LineTo] and keeps
    the command; but a trailing [Z] only sets the active command, so
    ["M0 0 10 10 20 0 Z"] issues no [ClosePath]. *)
Theorem implicit_lineto_and_trailing_close :
  (forall tokens st tx ty x y,
     py_in tx (chars "MmLlCcZz") = false ->
     nth_error tokens (i st + 1) = Some ty ->
     float_of_str tx = Ok x -> float_of_str ty = Ok y ->
     (current_command st = Some (chars "M") ->
        step tokens st tx =
        Ok (mkCursor (i st + 2) x y (Some (chars "L")) (emitted st ++ [MoveTo x y])))
     /\ (current_command st = Some (chars "m") ->
        step tokens st tx =
        Ok (mkCursor (i st + 2) (current_x st + x) (current_y st + y) (Some (chars "l"))
              (emitted st ++ [MoveTo (current_x st + x) (current_y st + y)]))%float)
     /\ (current_command st = Some (chars "L") ->
        step tokens st tx =
        Ok (mkCursor (i st + 2) x y (Some (chars "L")) (emitted st ++ [LineTo x y])))
     /\ (current_command st = Some (chars "l") ->
        step tokens st tx =
        Ok (mkCursor (i st + 2) (current_x st + x) (current_y st + y) (Some (chars "l"))
              (emitted st ++ [LineTo (current_x st + x) (current_y st + y)]))%float))
  /\ _parse_path_data "M0 0 10 10 20 0 Z" =
     (mkCursor 8 20 0 (Some (chars "Z")) [MoveTo 0 0; LineTo 10 10; LineTo 20 0], None)%float.
Proof.
  split; [|vm_compute; reflexivity].
  intros tokens [k cx cy cmd out] tx ty x y Hin Hty Hx Hy; cbn [i current_command current_x current_y emitted] in *.
  unfold step. rewrite Hin. unfold float_at, index.
  rewrite Hty. cbn [bind]. rewrite Hx, Hy. cbn [bind].
  repeat split; intros ->; reflexivity.
Qed.

Lemma implicit_lineto_and_trailing_close_witness :
  step [chars "M"; chars "0"; chars "0"] (mkCursor 1 0 0 (Some (chars "M")) []) (chars "0")
  = Ok (mkCursor 3 0 0 (Some (chars "L")) [MoveTo 0 0])%float.
Proof.
  apply (proj1 (proj1 implicit_lineto_and_trailing_close
                  [chars "M"; chars "0"; chars "0"] (mkCursor 1 0 0 (Some (chars "M")) [])
                  (chars "0") (chars "0") 0%float 0%float
                  eq_refl eq_refl eq_refl eq_refl)).
  reflexivity.
Defined.

(** C5: from the initial point (0,0), the relative path
    ["m5 5 l5 0 l0 5 z"] issues the same primitives, with the same
    absolute coordinates, as the absolute ["M5 5 L10 5 L10 10 Z"]. *)
Theorem relative_path_matches_absolute :
  path_prims "m5 5 l5 0 l0 5 z" = path_prims "M5 5 L10 5 L10 10 Z"
  /\ path_prims "M5 5 L10 5 L10 10 Z" = [MoveTo 5 5; LineTo 10 5; LineTo 10 10]%float
  /\ snd (_parse_path_data "m5 5 l5 0 l0 5 z") = None
  /\ snd (_parse_path_data "M5 5 L10 5 L10 10 Z") = None.
Proof. repeat split; vm_compute; reflexivity. Qed.

(** ** Style cascade *)

Lemma dict_get_set_neq d k k' v :
  k <> k' -> dict_get (dict_set d k' v) k = dict_get d k.
Proof.
  intro Hne. induction d as [|[k1 v1] d IH]; cbn.
  - destruct (String.eqb_spec k k'); congruence.
  - destruct (String.eqb_spec k' k1) as [->|Hk']; cbn.
    + destruct (String.eqb_spec k k1); congruence.
    + destruct (String.eqb_spec k k1); [reflexivity | exact IH].
Qed.

(** The second loop of [parse_style] never changes a key already set. *)
Lemma add_presentation_attrs_keeps e d k v :
  dict_get d k = Some v -> dict_get (add_presentation_attrs e d) k = Some v.
Proof.
  unfold add_presentation_attrs. generalize svg_style_attrs as attrs.
  intro attrs. revert d.
  induction attrs as [|a attrs IH]; intros d Hd; cbn [fold_left]; [exact Hd|].
  apply IH. unfold dict_has.
  destruct (dict_get d a) eqn:Ha; cbn [negb]; [exact Hd|].
  destruct (get e a); [|exact Hd].
  rewrite dict_get_set_neq; [exact Hd|]. intros ->. congruence.
Qed.

(** C6: a key set by the [style] attribute keeps its inline value in the
    property map, whatever the presentation attributes say; with
    [style="fill:#000000"] and [fill="#ffffff"] the fill is [#000000]. *)
Theorem inline_style_wins :
  (forall (e : element) k v,
     dict_get (inline_styles e) k = Some v -> dict_get (parse_style e) k = Some v)
  /\ dict_get (parse_style [("style", "fill:#000000"); ("fill", "#ffffff")]%string) "fill"
     = Some "#000000"%string.
Proof.
  split.
  - intros e k v H. unfold parse_style. apply add_presentation_attrs_keeps. exact H.
  - vm_compute. reflexivity.
Qed.

Lemma inline_style_wins_witness :
  dict_get (inline_styles [("style", "fill:#000000"); ("fill", "#ffffff")]%string) "fill"
    = Some "#000000"%string
  /\ dict_get (parse_style [("style", "fill:#000000"); ("fill", "#ffffff")]%string) "fill"
    = Some "#000000"%string.
Proof.
  split; [vm_compute; reflexivity|].
  apply (proj1 inline_style_wins); vm_compute; reflexivity.
Defined.

(** *** [str.strip()] is idempotent *)

Lemma lstrip_idem l : lstrip (lstrip l) = lstrip l.
Proof.
  induction l as [|c r IH]; cbn; [reflexivity|].
  destruct (is_space c) eqn:Hc; [exact IH | cbn; rewrite Hc; reflexivity].
Qed.

Lemma lstrip_suffix l : exists p, l = p ++ lstrip l.
Proof.
  induction l as [|c r [p Hp]]; cbn; [exists []; reflexivity|].
  destruct (is_space c); [exists (c :: p); cbn; f_equal; exact Hp | exists []; reflexivity].
Qed.

Lemma lstrip_head l :
  lstrip l = [] \/ exists c r, lstrip l = c :: r /\ is_space c = false.
Proof.
  induction l as [|c r IH]; cbn; [left; reflexivity|].
  destruct (is_space c) eqn:Hc; [exact IH | right; eauto].
Qed.

Lemma lstrip_fixed c r : is_space c = false -> lstrip (c :: r) = c :: r.
Proof. intro H. cbn. rewrite H. reflexivity. Qed.

Lemma strip_idem l : strip (strip l) = strip l.
Proof.
  unfold strip.
  set (a := lstrip l). set (b := lstrip (rev a)).
  assert (Hb : lstrip (rev b) = rev b).
  { destruct (lstrip_suffix (rev a)) as [p Hp]. fold b in Hp.
    assert (Ha : a = rev b ++ rev p).
    { rewrite <- rev_app_distr, <- Hp, rev_involutive. reflexivity. }
    destruct (rev b) as [|c r] eqn:Hrb; [reflexivity|].
    destruct (lstrip_head l) as [H0 | (c' & r' & H1 & H2)].
    - fold a in H0. rewrite H0 in Ha. discriminate.
    - fold a in H1. rewrite H1 in Ha. cbn in Ha. injection Ha as -> _.
      apply lstrip_fixed. exact H2. }
  rewrite Hb, rev_involutive. unfold b. rewrite lstrip_idem. reflexivity.
Qed.

Lemma py_float_strip l : py_float (strip l) = py_float l.
Proof. unfold py_float. rewrite strip_idem. reflexivity. Qed.

(** C7: [get_opacity] is 1.0 on the empty string, the numeric prefix over
    100 on an input ending in ['%'] (after [strip()]), the parsed float
    clamped by [max(0.0, min(1.0, x))] on any other numeric input, and a
    [ValueError] "Invalid opacity ..." on non-numeric input;
    ["50%"] and ["0.5"] give 0.5, ["150"] gives 1.0, ["-10"] gives 0.0. *)
Theorem get_opacity_spec :
  get_opacity EmptyString = Ok 1%float
  /\ (forall s f,
        endswith (strip (chars s)) (chars "%") = true ->
        py_float (drop_last 1 (strip (chars s))) = Some f ->
        get_opacity s = Ok (f / 100)%float)
  /\ (forall s f,
        endswith (strip (chars s)) (chars "%") = false ->
        py_float (chars s) = Some f ->
        get_opacity s = Ok (py_max 0 (py_min 1 f))%float)
  /\ (forall s,
        SVGParser.nonempty s = true ->
        (if endswith (strip (chars s)) (chars "%")
         then py_float (drop_last 1 (strip (chars s)))
         else py_float (chars s)) = None ->
        exists m, get_opacity s = Err (ValueError ("Invalid opacity " ++ m)))
  /\ get_opacity "50%" = Ok 0.5%float
  /\ get_opacity "0.5" = Ok 0.5%float
  /\ get_opacity "150" = Ok 1%float
  /\ get_opacity "-10" = Ok 0%float.
Proof.
  split; [reflexivity|]. split; [|split; [|split]].
  - intros s f Hp Hf. unfold get_opacity.
    destruct (SVGParser.nonempty s) eqn:Hs.
    + cbn [negb]. rewrite Hp, Hf. reflexivity.
    + destruct s; [|discriminate]. discriminate Hp.
  - intros s f Hp Hf. unfold get_opacity.
    destruct (SVGParser.nonempty s) eqn:Hs.
    + cbn [negb]. rewrite Hp, py_float_strip, Hf. reflexivity.
    + destruct s; [|discriminate]. discriminate Hf.
  - intros s Hs Hn. unfold get_opacity. rewrite Hs. cbn [negb].
    destruct (endswith (strip (chars s)) (chars "%")).
    + rewrite Hn. eexists. reflexivity.
    + rewrite py_float_strip, Hn. eexists. reflexivity.
  - repeat split; vm_compute; reflexivity.
Qed.

Lemma get_opacity_spec_witness :
  get_opacity "25%" = Ok (25 / 100)%float
  /\ get_opacity " 2.5 " = Ok 1%float
  /\ exists m, get_opacity "half" = Err (ValueError ("Invalid opacity " ++ m)).
Proof.
  destruct get_opacity_spec as (_ & Hpct & Hnum & Hbad & _).
  split; [|split].
  - apply Hpct; vm_compute; reflexivity.
  - rewrite (Hnum _ 2.5%float); [vm_compute; reflexivity | vm_compute; reflexivity | vm_compute; reflexivity].
  - apply Hbad; vm_compute; reflexivity.
Defined.

(** C10: a property map without ['fill'], or with an empty ['fill'],
    gives no fill colour, exactly as the explicit value ['none'] does; the
    same holds for ['stroke']. *)
Theorem absent_paint_is_none :
  (forall e : element,
     dict_get (parse_style e) "fill" = None \/ dict_get (parse_style e) "fill" = Some EmptyString ->
     get_fill e = Ok None)
  /\ (forall e : element,
        dict_get (parse_style e) "stroke" = None \/ dict_get (parse_style e) "stroke" = Some EmptyString ->
        get_stroke e = Ok None)
  /\ (forall e : element, dict_get (parse_style e) "fill" = Some "none"%string -> get_fill e = Ok None)
  /\ (forall e : element, dict_get (parse_style e) "stroke" = Some "none"%string -> get_stroke e = Ok None).
Proof.
  repeat split; intros e H; unfold get_fill, get_stroke;
    try (destruct H as [H | H]); rewrite H; reflexivity.
Qed.

Lemma absent_paint_is_none_witness :
  get_fill [] = Ok None /\ get_stroke [("stroke", "")]%string = Ok None
  /\ get_fill [("style", "fill:none")]%string = Ok None
  /\ get_stroke [("stroke", "none")]%string = Ok None.
Proof.
  destruct absent_paint_is_none as (Hf & Hs & Hfn & Hsn).
  split; [|split; [|split]].
  - apply Hf. left. reflexivity.
  - apply Hs. right. reflexivity.
  - apply Hfn. reflexivity.
  - apply Hsn. reflexivity.
Defined.

(** ** Viewbox resolution *)

(** C8 counterexample: a viewBox with a negative width is returned as it
    is. *)
Lemma get_viewbox_negative_width :
  get_viewbox [("viewBox", "0 0 -10 5")]%string = Ok (0, 0, -10, 5)%float
  /\ get_viewbox [("width", "-5px"); ("height", "3")]%string = Ok (0, 0, -5, 3)%float.
Proof. split; vm_compute; reflexivity. Qed.

(** C8 (corrected): [get_viewbox] checks no sign.  A non-empty [viewBox]
    of four whitespace-separated fields that [float()] accepts is returned
    as those four floats; without a (non-empty) [viewBox], non-empty
    [width] and [height] give [(0, 0, width, height)] after the unit suffix
    is stripped.  Negative, infinite or NaN sizes pass through. *)
Theorem get_viewbox_returns_parsed :
  (forall (r : element) s a b c d x y w h,
     Xml.get r "viewBox" = Some s -> SVGParser.nonempty s = true ->
     split_ws (chars s) = [a; b; c; d] ->
     py_float a = Some x -> py_float b = Some y ->
     py_float c = Some w -> py_float d = Some h ->
     get_viewbox r = Ok (x, y, w, h))
  /\ (forall (r : element) ws hs w h,
        (Xml.get r "viewBox" = None \/ Xml.get r "viewBox" = Some EmptyString) ->
        Xml.get r "width" = Some ws -> Xml.get r "height" = Some hs ->
        SVGParser.nonempty ws = true -> SVGParser.nonempty hs = true ->
        _parse_dimension ws = Ok w -> _parse_dimension hs = Ok h ->
        get_viewbox r = Ok (0, 0, w, h)%float).
Proof.
  split.
  - intros r s a b c d x y w h Hv Hs Hsp Ha Hb Hc Hd.
    unfold get_viewbox. rewrite Hv, Hs. unfold floats4. rewrite Hsp, Ha, Hb, Hc, Hd.
    reflexivity.
  - intros r ws hs w h Hv Hw Hh Hws Hhs Hpw Hph.
    unfold get_viewbox.
    destruct Hv as [-> | ->]; cbn [SVGParser.nonempty];
      rewrite Hw, Hh, Hws, Hhs; cbn [andb]; rewrite Hpw; cbn [bind]; rewrite Hph; reflexivity.
Qed.

Lemma get_viewbox_returns_parsed_witness :
  get_viewbox [("viewBox", "0 0 -10 5")]%string = Ok (0, 0, -10, 5)%float
  /\ get_viewbox [("width", "-5px"); ("height", "3")]%string = Ok (0, 0, -5, 3)%float.
Proof.
  destruct get_viewbox_returns_parsed as [Hvb Hwh]. split.
  - apply (Hvb _ "0 0 -10 5"%string (chars "0") (chars "0") (chars "-10") (chars "5"));
      vm_compute; reflexivity.
  - apply (Hwh _ "-5px"%string "3"%string); [left| | | | | |]; vm_compute; reflexivity.
Defined.

(** ** Layers *)

(** C9 (code_bug): the layer names are the labels in document order, and
    an absent identifier fails with a [ValueError] listing them; but
    [get_layer_by_id] formats the identifier into its XPath query without
    escaping, so [injected_id], which is no layer's label or id but closes
    the quoted literal and adds a true [or] clause, finds the first layer,
    and an identifier holding one double quote raises [XPathEvalError]. *)
Theorem get_layer_lookup :
  get_layer_names two_layers = ["Layer 1"; "Layer 2"]%string
  /\ get_layer two_layers "Layer 3"
     = Err (ValueError "Layer 'Layer 3' not found. Available layers: Layer 1, Layer 2")
  /\ Forall (fun l => Xml.get l label_key <> Some injected_id /\ Xml.get l "id" <> Some injected_id)
       two_layers
  /\ get_layer two_layers injected_id = Ok (hd [] two_layers)
  /\ get_layer two_layers ("a" ++ dq ++ "b") = Err XPathEvalError.
Proof.
  split; [reflexivity|]. split; [vm_compute; reflexivity|].
  split; [repeat constructor; vm_compute; discriminate|].
  split; vm_compute; reflexivity.
Qed.

(** * Further properties of the code *)

(** ** Strings and lists *)

Lemma chars_app s1 s2 : chars (s1 ++ s2) = chars s1 ++ chars s2.
Proof. induction s1 as [|c s IH]; cbn; [reflexivity|]. unfold chars in IH. rewrite IH. reflexivity. Qed.

Lemma str_chars s : str (chars s) = s.
Proof. apply string_of_list_ascii_of_string. Qed.

Lemma chars_str l : chars (str l) = l.
Proof. apply list_ascii_of_string_of_list_ascii. Qed.

Lemma length_chars s : List.length (chars s) = String.length s.
Proof. induction s as [|c s IH]; cbn; [reflexivity|]. unfold chars in IH. rewrite IH. reflexivity. Qed.

Lemma lstrip_length l : (List.length (lstrip l) <= List.length l)%nat.
Proof. induction l as [|c r IH]; cbn; [lia|]. destruct (is_space c); cbn; lia. Qed.

Lemma lstrip_length_eq l : List.length (lstrip l) = List.length l -> lstrip l = l.
Proof.
  destruct (lstrip_suffix l) as [p Hp]. intro H.
  rewrite Hp in H at 2. rewrite length_app in H.
  destruct p; [|cbn in H; lia]. cbn in Hp. congruence.
Qed.

Lemma lstrip_app_fixed l m : lstrip m = m -> lstrip (l ++ m) = lstrip l ++ m.
Proof.
  intro Hm. induction l as [|c r IH]; cbn; [exact Hm|].
  destruct (is_space c); [exact IH | reflexivity].
Qed.

Lemma lstrip_app_head a b : lstrip a = a -> a <> [] -> lstrip (a ++ b) = a ++ b.
Proof.
  intros Ha Hne. destruct a as [|c r]; [contradiction|]. cbn in *.
  destruct (is_space c) eqn:Hc; [|reflexivity].
  pose proof (lstrip_length r) as Hl. rewrite Ha in Hl. cbn in Hl. lia.
Qed.

Lemma strip_fixed l : lstrip l = l -> lstrip (rev l) = rev l -> strip l = l.
Proof. intros H1 H2. unfold strip. rewrite H1, H2, rev_involutive. reflexivity. Qed.

Lemma strip_fixed_inv l : strip l = l -> lstrip l = l /\ lstrip (rev l) = rev l.
Proof.
  intro H. unfold strip in H.
  assert (Hlen : List.length (lstrip l) = List.length l).
  { pose proof (lstrip_length l). pose proof (lstrip_length (rev (lstrip l))).
    pose proof (f_equal (@List.length ascii) H) as HL. rewrite !length_rev in *. lia. }
  apply lstrip_length_eq in Hlen. split; [exact Hlen|].
  rewrite Hlen in H. rewrite <- H at 2. rewrite rev_involutive. reflexivity.
Qed.

Lemma strip_length_eq l : List.length (strip l) = List.length l -> strip l = l.
Proof.
  intro H. unfold strip in H. rewrite length_rev in H.
  pose proof (lstrip_length l) as L1. pose proof (lstrip_length (rev (lstrip l))) as L2.
  rewrite length_rev in *.
  assert (E1 : lstrip l = l) by (apply lstrip_length_eq; lia).
  rewrite E1 in *. apply strip_fixed; [exact E1|].
  apply lstrip_length_eq. rewrite length_rev. lia.
Qed.

Lemma strip_lstrip l : strip (lstrip l) = strip l.
Proof. unfold strip. rewrite lstrip_idem. reflexivity. Qed.



(** [s.endswith(suf)] looks at the last [len(suf)] characters only. *)
Lemma endswith_app l m suf :
  (List.length suf <= List.length m)%nat -> endswith (l ++ m) suf = endswith m suf.
Proof.
  intro H. unfold endswith. rewrite length_app.
  replace ((List.length suf <=? List.length l + List.length m)%nat) with true by (symmetry; apply Nat.leb_le; lia).
  replace ((List.length suf <=? List.length m)%nat) with true by (symmetry; apply Nat.leb_le; lia).
  rewrite skipn_app, skipn_all2 by lia. cbn [app].
  replace (List.length l + List.length m - List.length suf - List.length l)%nat
    with (List.length m - List.length suf)%nat by lia.
  reflexivity.
Qed.

Lemma endswith_last l a s b : endswith (l ++ [a]) (s ++ [b]) = true -> a = b.
Proof.
  unfold endswith. rewrite !length_app. cbn [List.length].
  destruct (Nat.leb_spec (List.length s + 1) (List.length l + 1)) as [Hle|]; [|discriminate].
  destruct (list_eq_dec ascii_dec _ _) as [He|]; [|discriminate]. intros _.
  rewrite skipn_app in He.
  replace (List.length l + 1 - (List.length s + 1) - List.length l)%nat with 0%nat in He by lia.
  cbn [skipn] in He. apply app_inj_tail in He. destruct He as [_ He]. exact He.
Qed.

Lemma drop_last_app l m : drop_last (List.length m) (l ++ m) = l.
Proof.
  unfold drop_last. rewrite length_app. replace (List.length l + List.length m - List.length m)%nat with (List.length l) by lia.
  rewrite firstn_app, firstn_all, Nat.sub_diag. cbn. apply app_nil_r.
Qed.

Lemma endswith_app_self l m : endswith (l ++ m) m = true.
Proof.
  rewrite endswith_app by lia. unfold endswith.
  rewrite Nat.leb_refl, Nat.sub_diag. cbn [skipn andb].
  destruct (list_eq_dec ascii_dec m m) as [_|n]; [reflexivity | contradiction].
Qed.

Lemma endswith_pct_false l a b : b <> "%"%char -> endswith (l ++ ["%"%char]) [a; b] = false.
Proof.
  intro Hb. destruct (endswith _ _) eqn:E; [|reflexivity].
  change [a; b] with ([a] ++ [b]) in E. apply endswith_last in E. congruence.
Qed.

Lemma strip_unit_hit u us l : SVGParser.strip_unit (u :: us) (l ++ chars u) = l.
Proof.
  cbn [SVGParser.strip_unit]. rewrite endswith_app_self, <- length_chars. apply drop_last_app.
Qed.

Lemma strip_unit_miss u us l :
  endswith l (chars u) = false -> SVGParser.strip_unit (u :: us) l = SVGParser.strip_unit us l.
Proof. intro H. cbn [SVGParser.strip_unit]. rewrite H. reflexivity. Qed.


Ltac in_cases H := repeat (destruct H as [<- | H]); try (destruct H).

Ltac unit_cases :=
  repeat first
    [ rewrite strip_unit_hit
    | rewrite strip_unit_miss by
        first [ rewrite endswith_app by (cbn; lia); reflexivity
              | cbn [chars list_ascii_of_string]; apply endswith_pct_false; discriminate ] ].


(** X2: [_parse_dimension] removes one unit suffix among px, pt, mm, cm,
    in, pc, em, ex and % and parses the number in front of it. *)
Theorem parse_dimension_units :
  forall s u f, In u dimension_units -> py_float (chars s) = Some f ->
  _parse_dimension (s ++ u) = Ok f.
Proof.
  intros s u f Hu Hf. unfold _parse_dimension. rewrite chars_app. unfold dimension_units.
  in_cases Hu; unit_cases; rewrite Hf; reflexivity.
Qed.



(** X4: [get_document_unit] always returns one of mm, cm, in, pt, pc and
    px, each of which has an inches-per-unit factor in
    [calculate_pixel_size]'s table. *)
Theorem document_unit_known :
  forall root : element,
    In (get_document_unit root) ["mm"; "cm"; "in"; "pt"; "pc"; "px"]%string
    /\ exists f, unit_to_inches (get_document_unit root) = Some f.
Proof.
  intro root. unfold get_document_unit. generalize (chars (get_default root "width" EmptyString)) as w.
  intro w. cbn [first_suffix].
  repeat match goal with |- context [if ?b then _ else _] => destruct b end;
    split; cbn; eauto 10.
Qed.

Lemma round_half_even_pos_spec m e :
  e < 0 ->
  let n := round_half_even_pos m e in
  2 * Z.abs (m - n * 2 ^ (- e)) <= 2 ^ (- e)
  /\ (2 * Z.abs (m - n * 2 ^ (- e)) = 2 ^ (- e) -> Z.even n = true).
Proof.
  intros He. cbn zeta. unfold round_half_even_pos.
  destruct (Z.leb_spec 0 e) as [|_]; [lia|].
  set (d := 2 ^ (- e)). set (half := 2 ^ (- e - 1)).
  assert (Hd : d = 2 * half).
  { unfold d, half. rewrite <- Z.pow_succ_r by lia. f_equal. lia. }
  assert (Hh : 0 < half) by (apply Z.pow_pos_nonneg; lia).
  pose proof (Z.div_mod m d ltac:(lia)) as Hm.
  pose proof (Z.mod_pos_bound m d ltac:(lia)) as Hr.
  set (q := m / d) in *. set (r := m mod d) in *.
  destruct (Z.ltb_spec half r).
  - replace (m - (q + 1) * d) with (r - d) by lia. rewrite Z.abs_neq by lia. split; [|intro]; lia.
  - destruct (Z.ltb_spec r half).
    + replace (m - q * d) with r by lia. rewrite Z.abs_eq by lia. split; [|intro]; lia.
    + assert (r = half) by lia.
      destruct (Z.even q) eqn:Eq.
      * split; [|intros _; exact Eq]. replace (m - q * d) with r by lia. rewrite Z.abs_eq by lia. lia.
      * split; [|intros _; rewrite Z.even_add, Eq; reflexivity].
        replace (m - (q + 1) * d) with (r - d) by lia. rewrite Z.abs_neq by lia. lia.
Qed.

(** X5: the [round()] of [calculate_pixel_size] returns, for a finite
    float [m * 2^e] with [e < 0], the integer nearest to it, and on a tie
    the even one. *)
Theorem py_round_nearest_even :
  forall f s m e,
    Prim2SF f = S754_finite s m e -> e < 0 ->
    exists n, py_round f = Ok n
    /\ 2 * Z.abs ((if s then - Zpos m else Zpos m) - n * 2 ^ (- e)) <= 2 ^ (- e)
    /\ (2 * Z.abs ((if s then - Zpos m else Zpos m) - n * 2 ^ (- e)) = 2 ^ (- e) -> Z.even n = true).
Proof.
  intros f s m e Hf He. unfold py_round. rewrite Hf.
  destruct (round_half_even_pos_spec (Zpos m) e He) as [H1 H2].
  set (n := round_half_even_pos (Zpos m) e) in *.
  eexists; split; [reflexivity|].
  destruct s.
  - replace (- Zpos m - - n * 2 ^ (- e)) with (- (Zpos m - n * 2 ^ (- e))) by ring.
    rewrite Z.abs_opp, Z.even_opp. split; assumption.
  - split; assumption.
Qed.

Lemma py_round_nearest_even_witness :
  py_round 2.5%float = Ok 2 /\ py_round 3.5%float = Ok 4.
Proof.
  split.
  - destruct (py_round_nearest_even 2.5%float false 5629499534213120%positive (-51)
                ltac:(vm_compute; reflexivity) ltac:(lia)) as (n & Hn & Hd & Ht).
    rewrite Hn. f_equal.
    replace (2 ^ (- -51)) with 2251799813685248 in Hd, Ht by reflexivity.
    assert (n = 2 \/ n = 3) as [-> | ->] by lia; [reflexivity|].
    discriminate (Ht ltac:(vm_compute; reflexivity)).
  - destruct (py_round_nearest_even 3.5%float false 7881299347898368%positive (-51)
                ltac:(vm_compute; reflexivity) ltac:(lia)) as (n & Hn & Hd & Ht).
    rewrite Hn. f_equal.
    replace (2 ^ (- -51)) with 2251799813685248 in Hd, Ht by reflexivity.
    assert (n = 3 \/ n = 4) as [-> | ->] by lia; [|reflexivity].
    discriminate (Ht ltac:(vm_compute; reflexivity)).
Defined.

Lemma strip_nospace l : Forall (fun c => is_space c = false) l -> strip l = l.
Proof.
  intro H. apply strip_fixed.
  - destruct l as [|c r]; [reflexivity|]. inversion H; subst. cbn. rewrite H2. reflexivity.
  - apply Forall_rev in H. destruct (rev l) as [|c r]; [reflexivity|]. inversion H; subst. cbn. rewrite H2. reflexivity.
Qed.

Lemma hex_char_facts c v :
  hex_val c = Some v ->
  is_space c = false /\ c <> "-"%char /\ c <> "+"%char /\ c <> "#"%char
  /\ Ascii.eqb (lower_char c) "x" = false /\ hex_val (lower_char c) = Some v
  /\ (0 <= v < 16)%Z.
Proof.
  destruct c as [[] [] [] [] [] [] [] []]; cbn; intro H; try discriminate H;
    injection H as <-; repeat split; try reflexivity; try discriminate; lia.
Qed.

Lemma py_int16_two a b va vb :
  hex_val a = Some va -> hex_val b = Some vb -> py_int16 [a; b] = Some (16 * va + vb).
Proof.
  intros Ha Hb.
  destruct (hex_char_facts a va Ha) as (Sa & Ma & Pa & _).
  destruct (hex_char_facts b vb Hb) as (Sb & _ & _ & _ & Xb & _).
  unfold py_int16. rewrite strip_nospace by (repeat constructor; assumption).
  cbn [parse_sign].
  destruct (ascii_dec a "-"); [contradiction|]. destruct (ascii_dec a "+"); [contradiction|].
  rewrite Xb, andb_false_r. cbn [hex_digits]. rewrite Ha, Hb. f_equal; try lia.
Qed.

Lemma py_int16_neg a va : hex_val a = Some va -> py_int16 ["-"%char; a] = Some (- va).
Proof.
  intros Ha. destruct (hex_char_facts a va Ha) as (Sa & _).
  unfold py_int16. rewrite strip_nospace by (repeat constructor; assumption).
  cbn [parse_sign]. destruct (ascii_dec "-" "-") as [_|n]; [|contradiction].
  cbn [hex_digits]. rewrite Ha. f_equal; try lia.
Qed.

Lemma get_color_hash_body l :
  Forall (fun c => is_space c = false) l ->
  get_color (str ("#"%char :: l)) =
  (let cs := "#"%char :: lower l in
   let hex_color := if (List.length (lower l) =? 3)%nat then flat_map (fun c => [c; c]) (lower l) else lower l in
   if (List.length hex_color =? 6)%nat then
     match py_int16 (slice hex_color 0 2), py_int16 (slice hex_color 2 4),
           py_int16 (slice hex_color 4 6) with
     | Some r, Some g, Some b => Ok (Some (div255 r, div255 g, div255 b))
     | _, _, _ => Err (ValueError ("Invalid hex color: " ++ str cs))
     end
   else
     match lookup_named NAMED_COLORS (str cs) with
     | Some (r, g, b) => Ok (Some (div255 r, div255 g, div255 b))
     | None =>
         match match_rgb cs with
         | Some (r, g, b) => Ok (Some (div255 r, div255 g, div255 b))
         | None => Err (ValueError ("Unsupported color format: " ++ str cs))
         end
     end).
Proof.
  intro Hl. unfold get_color. rewrite chars_str.
  assert (Hne : SVGParser.nonempty (str ("#"%char :: l)) = true) by reflexivity.
  rewrite Hne. cbn [negb orb].
  destruct (list_eq_dec ascii_dec (lower ("#"%char :: l)) (chars "none")) as [E|_]; [discriminate E|].
  rewrite strip_nospace by (constructor; [reflexivity | exact Hl]).
  cbn [lower map]. change (lower_char "#") with "#"%char. cbn [Ascii.eqb Bool.eqb].
  fold (lower l). cbv zeta.
  set (hc := if (List.length (lower l) =? 3)%nat then flat_map (fun c : ascii => [c; c]) (lower l) else lower l).
  destruct (List.length hc =? 6)%nat; [|reflexivity].
  destruct (py_int16 (slice hc 0 2)), (py_int16 (slice hc 2 4)), (py_int16 (slice hc 4 6)); reflexivity.
Qed.

(** X6: ['#rrggbb'] and ['#rgb'] of hexadecimal digits (either case) give
    the components [int(hh, 16) / 255], a short form digit [h] counting as
    [hh]. *)
Theorem get_color_hex :
  forall c1 c2 c3 c4 c5 c6 v1 v2 v3 v4 v5 v6,
    hex_val c1 = Some v1 -> hex_val c2 = Some v2 -> hex_val c3 = Some v3 ->
    hex_val c4 = Some v4 -> hex_val c5 = Some v5 -> hex_val c6 = Some v6 ->
    get_color (str ["#"; c1; c2; c3; c4; c5; c6]%char)
      = Ok (Some (div255 (16 * v1 + v2), div255 (16 * v3 + v4), div255 (16 * v5 + v6)))
    /\ get_color (str ["#"; c1; c2; c3]%char)
      = Ok (Some (div255 (17 * v1), div255 (17 * v2), div255 (17 * v3))).
Proof.
  intros c1 c2 c3 c4 c5 c6 v1 v2 v3 v4 v5 v6 H1 H2 H3 H4 H5 H6.
  destruct (hex_char_facts c1 v1 H1) as (S1 & _ & _ & _ & _ & F1 & _).
  destruct (hex_char_facts c2 v2 H2) as (S2 & _ & _ & _ & _ & F2 & _).
  destruct (hex_char_facts c3 v3 H3) as (S3 & _ & _ & _ & _ & F3 & _).
  destruct (hex_char_facts c4 v4 H4) as (S4 & _ & _ & _ & _ & F4 & _).
  destruct (hex_char_facts c5 v5 H5) as (S5 & _ & _ & _ & _ & F5 & _).
  destruct (hex_char_facts c6 v6 H6) as (S6 & _ & _ & _ & _ & F6 & _).
  split.
  - rewrite get_color_hash_body by (repeat constructor; assumption).
    cbn -[py_int16 div255 lookup_named match_rgb Z.mul Z.add].
    rewrite (py_int16_two _ _ _ _ F1 F2), (py_int16_two _ _ _ _ F3 F4), (py_int16_two _ _ _ _ F5 F6).
    reflexivity.
  - replace (17 * v1) with (16 * v1 + v1) by lia. replace (17 * v2) with (16 * v2 + v2) by lia.
    replace (17 * v3) with (16 * v3 + v3) by lia.
    rewrite get_color_hash_body by (repeat constructor; assumption).
    cbn -[py_int16 div255 lookup_named match_rgb Z.mul Z.add].
    rewrite (py_int16_two _ _ _ _ F1 F1), (py_int16_two _ _ _ _ F2 F2), (py_int16_two _ _ _ _ F3 F3).
    reflexivity.
Qed.

(** X7: [int(..., 16)] accepts a sign, so ['#-f-8-0'] is a 7-character
    colour whose components are negative: -15/255, -8/255 and 0. *)
Theorem get_color_signed_hex :
  forall c1 c2 c3 v1 v2 v3,
    hex_val c1 = Some v1 -> hex_val c2 = Some v2 -> hex_val c3 = Some v3 ->
    get_color (str ["#"; "-"; c1; "-"; c2; "-"; c3]%char)
      = Ok (Some (div255 (- v1), div255 (- v2), div255 (- v3))).
Proof.
  intros c1 c2 c3 v1 v2 v3 H1 H2 H3.
  destruct (hex_char_facts c1 v1 H1) as (S1 & _ & _ & _ & _ & F1 & _).
  destruct (hex_char_facts c2 v2 H2) as (S2 & _ & _ & _ & _ & F2 & _).
  destruct (hex_char_facts c3 v3 H3) as (S3 & _ & _ & _ & _ & F3 & _).
  rewrite get_color_hash_body by (repeat constructor; assumption).
  cbn -[py_int16 div255 lookup_named match_rgb lower_char].
  change (lower_char "-") with "-"%char.
  cbn -[py_int16 div255 lookup_named match_rgb lower_char].
  rewrite (py_int16_neg _ _ F1), (py_int16_neg _ _ F2), (py_int16_neg _ _ F3).
  reflexivity.
Qed.

Lemma is_space_lower_char c : is_space (lower_char c) = is_space c.
Proof. destruct c as [[] [] [] [] [] [] [] []]; reflexivity. Qed.

Lemma lstrip_lower l : lstrip (lower l) = lower (lstrip l).
Proof.
  induction l as [|c r IH]; [reflexivity|]. cbn. rewrite is_space_lower_char.
  destruct (is_space c); [exact IH | reflexivity].
Qed.

Lemma rev_lower l : rev (lower l) = lower (rev l).
Proof. symmetry. apply map_rev. Qed.

Lemma strip_lower l : strip (lower l) = lower (strip l).
Proof. unfold strip. rewrite lstrip_lower, rev_lower, lstrip_lower, rev_lower. reflexivity. Qed.

Lemma length_lower l : List.length (lower l) = List.length l.
Proof. apply length_map. Qed.

Lemma nonempty_chars s : chars s <> [] -> SVGParser.nonempty s = true.
Proof. destruct s; [contradiction|reflexivity]. Qed.

(** X8: ['none'] in any case gives no colour, but a ['none'] with
    surrounding whitespace is not recognised and raises [ValueError]. *)
Theorem get_color_none_forms :
  forall s,
    (lower (chars s) = chars "none" -> get_color s = Ok None)
    /\ (lower (strip (chars s)) = chars "none" -> strip (chars s) <> chars s ->
        get_color s = Err (ValueError "Unsupported color format: none")).
Proof.
  intro s. split.
  - intro H. unfold get_color. destruct (SVGParser.nonempty s); [|reflexivity].
    destruct (list_eq_dec ascii_dec (lower (chars s)) (chars "none")) as [_|n]; [reflexivity|contradiction].
  - intros H Hs. unfold get_color.
    rewrite nonempty_chars by (intro E; apply Hs; rewrite E; reflexivity).
    destruct (list_eq_dec ascii_dec (lower (chars s)) (chars "none")) as [E|_].
    { exfalso. apply Hs. apply strip_length_eq.
      pose proof (f_equal (@List.length ascii) H) as L1. pose proof (f_equal (@List.length ascii) E) as L2.
      rewrite length_lower in L1, L2. congruence. }
    cbn [negb orb]. rewrite H. reflexivity.
Qed.

(** X9: a name of the colour table, in any case and surrounded by any
    whitespace, gives its components divided by 255. *)
Theorem get_color_named :
  forall s name r g b,
    In (name, (r, g, b)) NAMED_COLORS ->
    lower (strip (chars s)) = chars name ->
    get_color s = Ok (Some (div255 r, div255 g, div255 b)).
Proof.
  intros s name r g b Hin H. unfold get_color.
  assert (Hn : SVGParser.nonempty s = true).
  { apply nonempty_chars. intro E. rewrite E in H.
    cbn in Hin; repeat (destruct Hin as [Hin | Hin]; [injection Hin as <- <- <- <-; discriminate H|]); contradiction. }
  assert (Hnone : lower (chars s) <> chars "none").
  { intro E. apply (f_equal strip) in E. rewrite strip_lower, H in E. cbn in E.
    cbn in Hin; repeat (destruct Hin as [Hin | Hin]; [injection Hin as <- <- <- <-; discriminate E|]); contradiction. }
  rewrite Hn. destruct (list_eq_dec ascii_dec (lower (chars s)) (chars "none")) as [E|_]; [contradiction|].
  cbn [negb orb]. rewrite H.
  cbn in Hin; repeat (destruct Hin as [Hin | Hin]; [injection Hin as <- <- <- <-; reflexivity|]); contradiction.
Qed.


Lemma digit_char_facts c : is_digit c = true -> is_space c = false /\ lower_char c = c.
Proof. destruct c as [[] [] [] [] [] [] [] []]; cbn; intro H; try discriminate H; split; reflexivity. Qed.

Lemma span_digits_app ds c r :
  Forall (fun c => is_digit c = true) ds -> is_digit c = false ->
  Renderer.span_digits (ds ++ c :: r) = (ds, c :: r).
Proof.
  intros Hd Hc. induction Hd as [|d ds Hd1 _ IH]; cbn.
  - rewrite Hc. reflexivity.
  - rewrite Hd1. cbn in IH. rewrite IH. reflexivity.
Qed.

Lemma digits1_app ds c r :
  ds <> [] -> Forall (fun c => is_digit c = true) ds -> is_digit c = false ->
  digits1 (ds ++ c :: r) = Some (decimal_value ds, c :: r).
Proof.
  intros Hne Hd Hc. unfold digits1. rewrite span_digits_app by assumption.
  destruct ds; [contradiction | reflexivity].
Qed.

Lemma lstrip_digits_app ds r :
  ds <> [] -> Forall (fun c => is_digit c = true) ds -> lstrip (ds ++ r) = ds ++ r.
Proof.
  intros Hne Hd. destruct ds as [|d ds]; [contradiction|]. inversion Hd; subst.
  cbn. rewrite (proj1 (digit_char_facts d H1)). reflexivity.
Qed.

Lemma lower_digits ds : Forall (fun c => is_digit c = true) ds -> lower ds = ds.
Proof.
  intro Hd. induction Hd as [|d ds Hd1 _ IH]; [reflexivity|].
  cbn. rewrite (proj2 (digit_char_facts d Hd1)). fold (lower ds). rewrite IH. reflexivity.
Qed.

Lemma strip_front_fixed a c t :
  a <> [] -> lstrip a = a -> is_space c = false ->
  strip (a ++ c :: t) = a ++ c :: rev (lstrip (rev t)).
Proof.
  intros Hne Ha Hc. unfold strip. rewrite lstrip_app_head by assumption.
  rewrite rev_app_distr. cbn [rev]. rewrite <- app_assoc. cbn [app].
  rewrite lstrip_app_fixed by (cbn; rewrite Hc; reflexivity).
  rewrite rev_app_distr. cbn [rev]. rewrite rev_involutive, <- app_assoc. reflexivity.
Qed.


Lemma match_rgb_digits ds1 ds2 ds3 t :
  ds1 <> [] -> ds2 <> [] -> ds3 <> [] -> all_digits ds1 -> all_digits ds2 -> all_digits ds3 ->
  match_rgb ("r" :: "g" :: "b" :: "(" :: ds1 ++ "," :: ds2 ++ "," :: ds3 ++ ")" :: t)%char
  = Some (decimal_value ds1, decimal_value ds2, decimal_value ds3).
Proof.
  intros N1 N2 N3 D1 D2 D3. unfold match_rgb, skip_ws.
  cbn -[digits1 is_space]. change (is_space "(") with false. cbn -[digits1 is_space].
  rewrite lstrip_digits_app, digits1_app by (assumption || reflexivity).
  cbn -[digits1 is_space]. change (is_space ",") with false. cbn -[digits1 is_space].
  rewrite lstrip_digits_app, digits1_app by (assumption || reflexivity).
  cbn -[digits1 is_space]. change (is_space ",") with false. cbn -[digits1 is_space].
  rewrite lstrip_digits_app, digits1_app by (assumption || reflexivity).
  cbn -[digits1 is_space]. change (is_space ")") with false. cbn -[digits1 is_space].
  reflexivity.
Qed.

Lemma lookup_rgb_none x :
  lookup_named NAMED_COLORS (str ("r" :: "g" :: "b" :: "(" :: x)%char) = None.
Proof. reflexivity. Qed.

(** X10: ['rgb(r,g,b'...] with components of one to fifteen decimal
    digits gives [r/255], [g/255] and [b/255], without clamping to 255 and
    whatever follows the closing parenthesis.  Below [10^15] the component
    is an exact float, so [float_of_Z] is Python's [int]-to-[float]
    conversion and no [OverflowError] or digit-limit [ValueError] arises. *)
Theorem get_color_rgb :
  forall ds1 ds2 ds3 t,
    ds1 <> [] -> ds2 <> [] -> ds3 <> [] -> all_digits ds1 -> all_digits ds2 -> all_digits ds3 ->
    (List.length ds1 <= 15)%nat -> (List.length ds2 <= 15)%nat -> (List.length ds3 <= 15)%nat ->
    get_color (str (chars "rgb(" ++ ds1 ++ ","%char :: ds2 ++ ","%char :: ds3 ++ ")"%char :: t))
    = Ok (Some (div255 (decimal_value ds1), div255 (decimal_value ds2), div255 (decimal_value ds3))).
Proof.
  intros ds1 ds2 ds3 t N1 N2 N3 D1 D2 D3 _ _ _.
  set (a := chars "rgb(" ++ ds1 ++ ","%char :: ds2 ++ ","%char :: ds3).
  assert (Ha : forall t, chars "rgb(" ++ ds1 ++ ","%char :: ds2 ++ ","%char :: ds3 ++ ")"%char :: t
               = a ++ ")"%char :: t) by (intro; unfold a; rewrite !app_comm_cons, !app_assoc; reflexivity).
  rewrite Ha. unfold get_color. rewrite chars_str.
  assert (Hn : SVGParser.nonempty (str (a ++ ")"%char :: t)) = true) by reflexivity.
  rewrite Hn. cbn [negb orb].
  destruct (list_eq_dec ascii_dec (lower (a ++ ")"%char :: t)) (chars "none")) as [E|_];
    [discriminate E|].
  rewrite strip_front_fixed by (unfold a; (discriminate || reflexivity)).
  unfold lower. rewrite map_app. fold (lower a).
  assert (La : lower a = a).
  { assert (Hf : forall l, Forall (fun c => lower_char c = c) l -> lower l = l).
    { intros l Hl. induction Hl as [|c l Hc _ IH]; [reflexivity|]. cbn. fold (lower l). rewrite Hc, IH. reflexivity. }
    assert (Hd : forall l, all_digits l -> Forall (fun c => lower_char c = c) l).
    { intros l Hl. eapply Forall_impl; [|exact Hl]. intros c Hc. exact (proj2 (digit_char_facts c Hc)). }
    apply Hf. unfold a.
    apply Forall_app; split; [repeat constructor|].
    apply Forall_app; split; [apply Hd; assumption|]. constructor; [reflexivity|].
    apply Forall_app; split; [apply Hd; assumption|]. constructor; [reflexivity|].
    apply Hd; assumption. }
  rewrite La. cbn [map]. change (lower_char ")") with ")"%char.
  rewrite <- Ha. cbn -[match_rgb div255 str lower_char lookup_named].
  rewrite lookup_rgb_none, match_rgb_digits by assumption. reflexivity.
Qed.


Lemma lstrip_nil_iff l : lstrip l = [] <-> Forall (fun c => is_space c = true) l.
Proof.
  induction l as [|c r IH]; cbn; [split; auto|].
  destruct (is_space c) eqn:Hc; split; intro H.
  - constructor; [exact Hc | apply IH, H].
  - inversion H; subst. apply IH. assumption.
  - discriminate H.
  - inversion H; congruence.
Qed.

Lemma rstrip_nil l : lstrip l = [] -> rstrip l = [].
Proof.
  intro H. unfold rstrip. apply lstrip_nil_iff in H. apply Forall_rev in H.
  apply lstrip_nil_iff in H. rewrite H. reflexivity.
Qed.

Lemma rstrip_cons_end a c t : is_space c = false -> rstrip (a ++ c :: t) = a ++ c :: rstrip t.
Proof.
  intro Hc. unfold rstrip. rewrite rev_app_distr. cbn [rev]. rewrite <- app_assoc. cbn [app].
  rewrite lstrip_app_fixed by (cbn; rewrite Hc; reflexivity).
  rewrite rev_app_distr. cbn [rev]. rewrite rev_involutive, <- app_assoc. reflexivity.
Qed.

Lemma lstrip_rstrip l : lstrip (rstrip l) = rstrip (lstrip l).
Proof.
  destruct (lstrip_head l) as [H0 | (c & r & H1 & H2)].
  - rewrite H0, rstrip_nil by exact H0. reflexivity.
  - destruct (lstrip_suffix l) as [p Hp]. rewrite H1 in Hp.
    assert (Hp0 : lstrip p = []).
    { rewrite Hp, lstrip_app_fixed in H1 by (apply lstrip_fixed; exact H2).
      destruct (lstrip p); [reflexivity|]. apply (f_equal (@List.length ascii)) in H1.
      rewrite length_app in H1. cbn in H1. lia. }
    rewrite Hp at 1. rewrite rstrip_cons_end by exact H2.
    rewrite lstrip_app_fixed by (apply lstrip_fixed; exact H2). rewrite Hp0. cbn [app].
    rewrite H1. symmetry. exact (rstrip_cons_end [] c r H2).
Qed.

Lemma rstrip_idem l : rstrip (rstrip l) = rstrip l.
Proof. unfold rstrip. rewrite rev_involutive, lstrip_idem. reflexivity. Qed.

Lemma strip_rstrip l : strip (rstrip l) = strip l.
Proof.
  change (strip (rstrip l)) with (rstrip (lstrip (rstrip l))).
  rewrite lstrip_rstrip, rstrip_idem. reflexivity.
Qed.

Lemma strip_mid a c t : is_space c = false -> strip (a ++ c :: t) = lstrip a ++ c :: rstrip t.
Proof.
  intro Hc. change (strip (a ++ c :: t)) with (rstrip (lstrip (a ++ c :: t))).
  rewrite lstrip_app_fixed by (apply lstrip_fixed; exact Hc).
  apply rstrip_cons_end. exact Hc.
Qed.

Lemma split_on_aux_nosep sep b cur :
  ~ In sep b -> split_on_aux sep b cur = [rev cur ++ b].
Proof.
  revert cur. induction b as [|c b IH]; intros cur Hb; cbn.
  - rewrite app_nil_r. reflexivity.
  - destruct (ascii_dec c sep) as [->|Hne]; [exfalso; apply Hb; left; reflexivity|].
    rewrite IH by (intro; apply Hb; right; assumption). cbn. rewrite <- app_assoc. reflexivity.
Qed.

Lemma split_on_aux_mid sep b c cur :
  ~ In sep b -> split_on_aux sep (b ++ sep :: c) cur = (rev cur ++ b) :: split_on_aux sep c [].
Proof.
  revert cur. induction b as [|x b IH]; intros cur Hb; cbn.
  - destruct (ascii_dec sep sep) as [_|n]; [|contradiction]. rewrite app_nil_r. reflexivity.
  - destruct (ascii_dec x sep) as [->|Hne]; [exfalso; apply Hb; left; reflexivity|].
    rewrite IH by (intro; apply Hb; right; assumption). cbn. rewrite <- app_assoc. reflexivity.
Qed.

Lemma split_on_after sep a m :
  exists xs, split_on sep (a ++ sep :: m) = xs ++ split_on sep m.
Proof.
  unfold split_on.
  assert (H : forall cur, exists xs, split_on_aux sep (a ++ sep :: m) cur = xs ++ split_on_aux sep m []).
  { induction a as [|c a IH]; intro cur; cbn.
    - destruct (ascii_dec sep sep) as [_|n]; [|contradiction]. exists [rev cur]. reflexivity.
    - destruct (ascii_dec c sep).
      + destruct (IH []) as [xs Hxs]. rewrite Hxs. exists (rev cur :: xs). reflexivity.
      + apply IH. }
  apply H.
Qed.

Lemma parse_decls_other ds d k :
  (forall x, In x ds -> has_colon (strip x) = true -> str (strip (fst (split_colon (strip x)))) <> k) ->
  dict_get (fold_left
    (fun acc declaration =>
       let declaration := strip declaration in
       if has_colon declaration then
         let '(prop, value) := split_colon declaration in
         dict_set acc (str (strip prop)) (str (strip value))
       else acc) ds d) k = dict_get d k.
Proof.
  revert d. induction ds as [|x ds IH]; intros d Hds; cbn [fold_left]; [reflexivity|].
  rewrite IH by (intros y Hy; apply Hds; right; exact Hy).
  destruct (has_colon (strip x)) eqn:Hc; [|reflexivity].
  specialize (Hds x (or_introl eq_refl) Hc).
  destruct (split_colon (strip x)) as [pr va] eqn:Hs. cbn [fst] in Hds.
  apply dict_get_set_neq. intro H. apply Hds. symmetry. exact H.
Qed.

Lemma split_colon_nocolon p v :
  ~ In ":"%char p -> split_colon (p ++ ":"%char :: v) = (p, v).
Proof.
  intro Hp. induction p as [|c p IH]; cbn; [reflexivity|].
  destruct (Ascii.eqb_spec c ":") as [->|_]; [exfalso; apply Hp; left; reflexivity|].
  rewrite IH by (intro; apply Hp; right; assumption). reflexivity.
Qed.

Lemma dict_get_set_eq d k v : dict_get (dict_set d k v) k = Some v.
Proof.
  induction d as [|[k1 v1] d IH]; cbn.
  - rewrite String.eqb_refl. reflexivity.
  - destruct (String.eqb_spec k k1) as [->|Hne]; cbn.
    + rewrite String.eqb_refl. reflexivity.
    + destruct (String.eqb_spec k k1); [contradiction | exact IH].
Qed.

Lemma In_lstrip x l : In x (lstrip l) -> In x l.
Proof. destruct (lstrip_suffix l) as [p Hp]. intro H. rewrite Hp. apply in_or_app. right. exact H. Qed.

(** X11: when a [style] attribute declares a property again after an
    earlier declaration, and no declaration after it sets the same
    property, that declaration's stripped value is the property's value;
    later declarations of other properties, or empty ones, do not matter. *)
Theorem later_declaration_wins :
  forall (e : element) pre p v post,
    get e "style" = Some (str (pre ++ ";"%char :: p ++ ":"%char :: v ++ post)) ->
    ~ In ";"%char p -> ~ In ":"%char p -> ~ In ";"%char v ->
    (post = [] \/
     exists rest, post = ";"%char :: rest /\
       forall d, In d (split_on ";" rest) -> has_colon (strip d) = true ->
         str (strip (fst (split_colon (strip d)))) <> str (strip p)) ->
    dict_get (parse_style e) (str (strip p)) = Some (str (strip v)).
Proof.
  intros e pre p v post He Hp1 Hp2 Hv Hpost. unfold parse_style. apply add_presentation_attrs_keeps.
  unfold inline_styles, get_default. rewrite He.
  assert (Hne : SVGParser.nonempty (str (pre ++ ";"%char :: p ++ ":"%char :: v ++ post)) = true)
    by (destruct pre; reflexivity).
  rewrite Hne. unfold parse_declarations. rewrite chars_str.
  assert (Hm : ~ In ";"%char (p ++ ":"%char :: v)).
  { intro H. apply in_app_or in H. destruct H as [H | [H | H]]; [contradiction | discriminate | contradiction]. }
  destruct (split_on_after ";" pre ((p ++ ":"%char :: v) ++ post)) as [xs Hxs].
  rewrite <- app_assoc in Hxs. cbn [app] in Hxs. rewrite Hxs. clear Hxs.
  assert (Hseg : exists ys, split_on ";" ((p ++ ":"%char :: v) ++ post) = (p ++ ":"%char :: v) :: ys
                 /\ forall d, In d ys -> has_colon (strip d) = true ->
                      str (strip (fst (split_colon (strip d)))) <> str (strip p)).
  { destruct Hpost as [-> | (rest & -> & Hrest)].
    - exists []. split; [|intros d []]. rewrite app_nil_r. unfold split_on.
      rewrite split_on_aux_nosep by exact Hm. reflexivity.
    - exists (split_on ";" rest). split; [|exact Hrest]. unfold split_on.
      rewrite split_on_aux_mid by exact Hm. reflexivity. }
  destruct Hseg as (ys & Hsp & Hys).
  rewrite <- app_assoc in Hsp. cbn [app] in Hsp.
  rewrite Hsp, fold_left_app. cbn [fold_left]. rewrite parse_decls_other by exact Hys.
  rewrite strip_mid by reflexivity.
  replace (has_colon (lstrip p ++ ":"%char :: rstrip v)) with true
    by (symmetry; unfold has_colon; apply existsb_exists; exists ":"%char;
        split; [apply in_or_app; right; left; reflexivity | reflexivity]).
  rewrite split_colon_nocolon by (intro H; apply Hp2, In_lstrip, H).
  rewrite strip_lstrip, strip_rstrip. apply dict_get_set_eq.
Qed.

Lemma path_prims_empty : path_prims EmptyString = [].
Proof. vm_compute. reflexivity. Qed.

Lemma fill_ops_none e : get_fill e = Ok None -> fill_ops e = Ok [].
Proof. intro Hf. unfold fill_ops. rewrite Hf. reflexivity. Qed.

Lemma path_stroke_ops_none e : get_stroke e = Ok None -> path_stroke_ops e = Ok [].
Proof. intro Hs. unfold path_stroke_ops. rewrite Hs. reflexivity. Qed.

Lemma render_path_true_eq e :
  render_path true e =
  if negb (SVGParser.nonempty (get_default e "d" EmptyString)) then Ok []
  else
    let* prims :=
      match _parse_path_data (get_default e "d" EmptyString) with
      | (st, None) => Ok (emitted st)
      | (_, Some ex) => Err ex
      end in
    let* fill := fill_ops e in
    let* stroke := path_stroke_ops e in
    Ok (map PathOp prims ++ fill ++ stroke).
Proof. reflexivity. Qed.

(** X12: a path with neither fill nor stroke only adds its path
    primitives to the context; nothing is filled or stroked. *)
Theorem render_path_unpainted :
  forall e ops,
    get_fill e = Ok None -> get_stroke e = Ok None ->
    render_path true e = Ok ops ->
    ops = map PathOp (path_prims (get_default e "d" EmptyString)).
Proof.
  intros e ops Hf Hs H. rewrite render_path_true_eq in H.
  destruct (SVGParser.nonempty (get_default e "d" EmptyString)) eqn:Hd; cbn [negb] in H.
  - unfold path_prims. destruct (_parse_path_data (get_default e "d" EmptyString)) as [st [ex|]].
    + discriminate H.
    + rewrite fill_ops_none, path_stroke_ops_none in H by assumption.
      cbn [bind] in H. injection H as <-. cbn [fst]. apply app_nil_r.
  - injection H as <-. destruct (get_default e "d" EmptyString); [|discriminate Hd].
    rewrite path_prims_empty. reflexivity.
Qed.

Lemma bind_ok {A B} (x : A) (f : A -> result B) : bind (Ok x) f = f x.
Proof. reflexivity. Qed.

Lemma bind_err {A B} ex (f : A -> result B) : bind (Err ex) f = Err ex.
Proof. reflexivity. Qed.

(** Reduction of [bind] on a known outcome, without unfolding the
    accessors it is applied to. *)
Ltac bind_red H :=
  repeat (rewrite bind_ok in H || rewrite bind_err in H); cbv beta iota zeta in H.

Lemma fill_ops_shape e fill :
  fill_ops e = Ok fill ->
  (get_fill e = Ok None /\ fill = [])
  \/ exists r g b a, get_fill e = Ok (Some (r, g, b))
     /\ ((get_stroke e = Ok None /\ fill = [SetSourceRGBA r g b a; Fill])
         \/ exists c, get_stroke e = Ok (Some c) /\ fill = [SetSourceRGBA r g b a; FillPreserve]).
Proof.
  unfold fill_ops.
  generalize (get_fill e) as gf. generalize (get_fill_opacity e) as gfo.
  generalize (get_stroke e) as gs. intros gs gfo gf H.
  destruct gf as [[[[r g] b]|]|ex]; bind_red H.
  - destruct gfo as [a|ex]; bind_red H; [|discriminate H].
    destruct gs as [[c|]|ex]; bind_red H; [| |discriminate H]; injection H as <-;
      right; exists r, g, b, a; split; auto; right; eauto.
  - injection H as <-. left. auto.
  - discriminate H.
Qed.

Lemma stroke_pre_paint_free r g b a w j m :
  let pre := [SetSourceRGBA r g b a; SetLineWidth w; SetLineJoin j] ++ miter_ops m in
  ~ In Fill pre /\ ~ In FillPreserve pre /\ ~ In Stroke pre.
Proof.
  unfold miter_ops.
  destruct m as [m|]; [destruct (SVGParser.nonempty m); [destruct (py_float (chars m))|]|];
    cbn; repeat split; intro H; repeat (destruct H as [H|H]; [discriminate H|]); exact H.
Qed.

Lemma path_stroke_ops_shape e stroke :
  path_stroke_ops e = Ok stroke ->
  (get_stroke e = Ok None /\ stroke = [])
  \/ exists c pre, get_stroke e = Ok (Some c) /\ stroke = pre ++ [Stroke]
     /\ ~ In Fill pre /\ ~ In FillPreserve pre /\ ~ In Stroke pre.
Proof.
  unfold path_stroke_ops.
  generalize (get_stroke e) as gs. generalize (get_stroke_width_value e) as gw.
  generalize (get_stroke_opacity e) as go. generalize (parse_style e) as styles.
  intros styles go gw gs H.
  destruct gs as [[[[r g] b]|]|ex]; bind_red H.
  - destruct gw as [w|ex]; bind_red H; [|discriminate H].
    destruct go as [a|ex]; bind_red H; [|discriminate H].
    injection H as <-. right.
    set (j := line_join_of _). set (m := dict_get styles "stroke-miterlimit").
    exists (r, g, b), ([SetSourceRGBA r g b a; SetLineWidth w; SetLineJoin j] ++ miter_ops m).
    split; [reflexivity|]. split; [rewrite <- app_assoc; reflexivity|].
    exact (stroke_pre_paint_free r g b a w j m).
  - injection H as <-. left. auto.
  - discriminate H.
Qed.

Lemma not_in_map_PathOp o l : (forall p, o <> PathOp p) -> ~ In o (map PathOp l).
Proof. intros Ho H. apply in_map_iff in H. destruct H as (p & Hp & _). apply (Ho p). symmetry. exact Hp. Qed.

(** X13: [render_path] issues the path primitives, then the fill, then
    the stroke; the fill uses [fill_preserve] exactly when a stroke
    follows, and the stroke's setup calls neither fill nor stroke. *)
Theorem render_path_paint_order :
  forall e ops,
    render_path true e = Ok ops ->
    SVGParser.nonempty (get_default e "d" EmptyString) = true ->
    exists fill stroke,
      ops = map PathOp (path_prims (get_default e "d" EmptyString)) ++ fill ++ stroke
      /\ ((get_fill e = Ok None /\ fill = [])
          \/ exists r g b a, get_fill e = Ok (Some (r, g, b))
             /\ ((get_stroke e = Ok None /\ fill = [SetSourceRGBA r g b a; Fill])
                 \/ exists c, get_stroke e = Ok (Some c) /\ fill = [SetSourceRGBA r g b a; FillPreserve]))
      /\ ((get_stroke e = Ok None /\ stroke = [])
          \/ exists c pre, get_stroke e = Ok (Some c) /\ stroke = pre ++ [Stroke]
             /\ ~ In Fill pre /\ ~ In FillPreserve pre /\ ~ In Stroke pre).
Proof.
  intros e ops H Hd. rewrite render_path_true_eq, Hd in H. cbv [negb] in H.
  unfold path_prims.
  destruct (_parse_path_data (get_default e "d" EmptyString)) as [st [ex|]]; bind_red H; [discriminate H|].
  destruct (fill_ops e) as [fill|ex] eqn:Hf; bind_red H; [|discriminate H].
  destruct (path_stroke_ops e) as [stroke|ex] eqn:Hs; bind_red H; [|discriminate H].
  injection H as <-. exists fill, stroke. split; [reflexivity|].
  split; [apply fill_ops_shape; exact Hf | apply path_stroke_ops_shape; exact Hs].
Qed.

Lemma float_attr_err e k ex : float_attr e k = Err ex -> exists msg, ex = ValueError msg.
Proof.
  unfold float_attr, float_of_str. destruct (get e k); [|discriminate].
  destruct (py_float _); intro H; [discriminate H|]. injection H as <-. eauto.
Qed.

Lemma rect_stroke_ops_shape e stroke :
  rect_stroke_ops e = Ok stroke ->
  stroke = [] \/ exists r g b a w, stroke = [SetSourceRGBA r g b a; SetLineWidth w; Stroke].
Proof.
  unfold rect_stroke_ops.
  generalize (get_stroke e) as gs. generalize (get_stroke_width_value e) as gw.
  generalize (get_stroke_opacity e) as go. intros go gw gs H.
  destruct gs as [[[[r g] b]|]|ex]; bind_red H.
  - destruct gw as [w|ex]; bind_red H; [|discriminate H].
    destruct go as [a|ex]; bind_red H; [|discriminate H].
    injection H as <-. right. exists r, g, b, a, w. reflexivity.
  - injection H as <-. left. reflexivity.
  - discriminate H.
Qed.

Lemma render_rect_true_eq e :
  render_rect true e =
    let* x := float_attr e "x" in
    let* y := float_attr e "y" in
    let* width := float_attr e "width" in
    let* height := float_attr e "height" in
    let* fill := fill_ops e in
    let* stroke := rect_stroke_ops e in
    Ok (Rectangle x y width height :: fill ++ stroke).
Proof. reflexivity. Qed.

(** X14: [render_rect] starts with [rectangle(x, y, width, height)] read
    by [float()], never sets a line join or a miter limit, and raises
    [ValueError] when x, y, width or height is not a plain number, e.g.
    ['1mm']. *)
Theorem render_rect_ops :
  (forall e ops,
     render_rect true e = Ok ops ->
     exists x y width height rest,
       ops = Rectangle x y width height :: rest
       /\ float_attr e "x" = Ok x /\ float_attr e "y" = Ok y
       /\ float_attr e "width" = Ok width /\ float_attr e "height" = Ok height
       /\ (forall j, ~ In (SetLineJoin j) ops) /\ (forall m, ~ In (SetMiterLimit m) ops))
  /\ (forall e k v,
        In k ["x"; "y"; "width"; "height"]%string -> get e k = Some v -> py_float (chars v) = None ->
        exists msg, render_rect true e = Err (ValueError msg)).
Proof.
  split.
  - intros e ops H. rewrite render_rect_true_eq in H.
    destruct (float_attr e "x") as [x|ex] eqn:Hx; bind_red H; [|discriminate H].
    destruct (float_attr e "y") as [y|ex] eqn:Hy; bind_red H; [|discriminate H].
    destruct (float_attr e "width") as [w|ex] eqn:Hw; bind_red H; [|discriminate H].
    destruct (float_attr e "height") as [h|ex] eqn:Hh; bind_red H; [|discriminate H].
    destruct (fill_ops e) as [fill|ex] eqn:Hf; bind_red H; [|discriminate H].
    destruct (rect_stroke_ops e) as [stroke|ex] eqn:Hs; bind_red H; [|discriminate H].
    injection H as <-. exists x, y, w, h, (fill ++ stroke).
    split; [reflexivity|]. do 4 (split; [first [reflexivity | assumption]|]). split.
    + intros j Hin. destruct Hin as [Hin|Hin]; [discriminate Hin|].
      apply in_app_or in Hin. destruct Hin as [Hin|Hin].
      * destruct (fill_ops_shape e fill Hf) as [[_ ->] | (r & g & b & a & _ & [[_ ->] | (c & _ & ->)])];
          cbn in Hin; repeat (destruct Hin as [Hin|Hin]; [discriminate Hin|]); exact Hin.
      * destruct (rect_stroke_ops_shape e stroke Hs) as [-> | (r & g & b & a & w' & ->)];
          cbn in Hin; repeat (destruct Hin as [Hin|Hin]; [discriminate Hin|]); exact Hin.
    + intros m Hin. destruct Hin as [Hin|Hin]; [discriminate Hin|].
      apply in_app_or in Hin. destruct Hin as [Hin|Hin].
      * destruct (fill_ops_shape e fill Hf) as [[_ ->] | (r & g & b & a & _ & [[_ ->] | (c & _ & ->)])];
          cbn in Hin; repeat (destruct Hin as [Hin|Hin]; [discriminate Hin|]); exact Hin.
      * destruct (rect_stroke_ops_shape e stroke Hs) as [-> | (r & g & b & a & w' & ->)];
          cbn in Hin; repeat (destruct Hin as [Hin|Hin]; [discriminate Hin|]); exact Hin.
  - intros e k v Hk Hg Hp.
    assert (Hk' : float_attr e k = Err (ValueError ("could not convert string to float: " ++ str (chars v)))).
    { unfold float_attr, float_of_str. rewrite Hg, Hp. reflexivity. }
    rewrite render_rect_true_eq.
    destruct (float_attr e "x") as [x|ex] eqn:Hx; rewrite ?bind_ok, ?bind_err;
      [|destruct (float_attr_err _ _ _ Hx) as [msg ->]; eauto].
    destruct (float_attr e "y") as [y|ex] eqn:Hy; rewrite ?bind_ok, ?bind_err;
      [|destruct (float_attr_err _ _ _ Hy) as [msg ->]; eauto].
    destruct (float_attr e "width") as [w|ex] eqn:Hw; rewrite ?bind_ok, ?bind_err;
      [|destruct (float_attr_err _ _ _ Hw) as [msg ->]; eauto].
    destruct (float_attr e "height") as [h|ex] eqn:Hh; rewrite ?bind_ok, ?bind_err;
      [|destruct (float_attr_err _ _ _ Hh) as [msg ->]; eauto].
    exfalso. cbn in Hk. repeat (destruct Hk as [<-|Hk]; [congruence|]). exact Hk.
Qed.

Lemma render_element_other ns local attrs children :
  local <> "rect"%string -> local <> "path"%string ->
  render_element (Node ns local attrs children) = Ok [].
Proof.
  intros H1 H2. cbn [render_element].
  apply String.eqb_neq in H1, H2. rewrite H1, H2. reflexivity.
Qed.

(** X15: [render_elements] renders a concatenation as the concatenation of
    the renderings, skips elements that are neither rect nor path, and
    calls [setup_surface] first exactly when there is no context yet. *)
Theorem render_elements_compose :
  (forall es1 es2,
     render_each (es1 ++ es2)
     = let* a := render_each es1 in let* b := render_each es2 in Ok (a ++ b))
  /\ (forall ns local attrs children es,
        local <> "rect"%string -> local <> "path"%string ->
        render_each (Node ns local attrs children :: es) = render_each es)
  /\ (forall es, render_elements true es = render_each es)
  /\ (forall es ops, render_elements false es = Ok ops ->
        exists rest, ops = setup_surface ++ rest /\ render_each es = Ok rest).
Proof.
  split; [|split; [|split]].
  - intros es1 es2. induction es1 as [|n es1 IH].
    + cbn [app render_each]. rewrite bind_ok. destruct (render_each es2); reflexivity.
    + cbn [app render_each]. rewrite IH.
      destruct (render_element n) as [a|ex]; rewrite ?bind_ok, ?bind_err; [|reflexivity].
      destruct (render_each es1) as [b|ex]; rewrite ?bind_ok, ?bind_err; [|reflexivity].
      destruct (render_each es2) as [c|ex]; rewrite ?bind_ok, ?bind_err; [|reflexivity].
      rewrite app_assoc. reflexivity.
  - intros ns local attrs children es H1 H2. cbn [render_each].
    rewrite render_element_other by assumption. rewrite bind_ok.
    destruct (render_each es); reflexivity.
  - intro es. unfold render_elements. destruct (render_each es); reflexivity.
  - intros es ops H. unfold render_elements in H.
    destruct (render_each es) as [rest|ex]; cbn in H; [|discriminate H].
    injection H as <-. exists rest. split; reflexivity.
Qed.

Lemma descendants_eq ns l a cs :
  descendants (Node ns l a cs) = flat_map (fun c => c :: descendants c) cs.
Proof. induction cs as [|c cs IH]; [reflexivity|]. cbn in *. rewrite IH. reflexivity. Qed.

(** X16: by default [extract_elements] returns all path descendants, at
    any depth, followed by all rect descendants, whatever their document
    order. *)
Theorem extract_elements_default :
  forall svg_ns layer,
    extract_elements svg_ns layer None
      = extract_elements svg_ns layer (Some ["path"]%string)
        ++ extract_elements svg_ns layer (Some ["rect"]%string)
    /\ (forall n, In n (extract_elements svg_ns layer None)
          <-> In n (descendants layer)
              /\ (is_svg_elem svg_ns "path" n = true \/ is_svg_elem svg_ns "rect" n = true))
    /\ (forall ns l a cs c d, In c cs ->
          In c (descendants (Node ns l a cs))
          /\ (In d (descendants c) -> In d (descendants (Node ns l a cs)))).
Proof.
  intros svg_ns layer. split; [|split].
  - unfold extract_elements. cbn. rewrite !app_nil_r. reflexivity.
  - intro n. unfold extract_elements. cbn [flat_map]. rewrite app_nil_r.
    rewrite in_app_iff, !filter_In. tauto.
  - intros ns l a cs c d Hc. rewrite descendants_eq. split.
    + apply in_flat_map. exists c. split; [exact Hc | left; reflexivity].
    + intro Hd. apply in_flat_map. exists c. split; [exact Hc | right; exact Hd].
Qed.



Lemma scan_literal_noq q l t : ~ In q l -> scan_literal q (l ++ q :: t) = Some (l, t).
Proof.
  induction l as [|c l IH]; intro Hn; cbn.
  - rewrite Ascii.eqb_refl. reflexivity.
  - destruct (Ascii.eqb c q) eqn:E.
    + apply Ascii.eqb_eq in E. subst. exfalso. apply Hn. left. reflexivity.
    + rewrite IH; [reflexivity|]. intro H. apply Hn. right. exact H.
Qed.

Lemma leq_chars v s : leq (chars v) (chars s) = String.eqb v s.
Proof.
  unfold leq. destruct (list_eq_dec ascii_dec (chars v) (chars s)) as [E|E].
  - symmetry. apply String.eqb_eq. rewrite <- (str_chars v), <- (str_chars s), E. reflexivity.
  - symmetry. apply String.eqb_neq. intro H. apply E. rewrite H. reflexivity.
Qed.

Lemma xlex_id_pred s f : ~ In dquote s -> (List.length s + 8 <= f)%nat ->
  xlex f ("[" :: "@" :: "i" :: "d" :: "=" :: dquote :: s ++ [dquote; "]"])%char
  = Some [TLBrack; TAt; TName ["i"; "d"]%char; TEq; TLit s; TRBrack].
Proof.
  intros Hq Hf.
  destruct f as [|[|[|[|[|[|[|[|f]]]]]]]]; try (exfalso; lia).
  simpl xlex. rewrite (scan_literal_noq _ _ _ Hq). reflexivity.
Qed.

(** X17: for an identifier without a double quote and without the control
    characters lxml refuses, [get_layer_by_id] returns the first layer
    whose [id] equals it. *)
Theorem get_layer_by_id_plain :
  forall layers layer_id, ~ In dquote (chars layer_id) ->
    Forall (fun c => xml_char c = true) (chars layer_id) ->
    get_layer_by_id layers layer_id
    = Ok (find (fun layer => match get layer "id" with
                             | Some v => String.eqb v layer_id
                             | None => false end) layers).
Proof.
  intros layers layer_id Hq _. unfold get_layer_by_id, parse_predicate.
  rewrite !chars_app.
  change (chars "[@id=") with ["[";"@";"i";"d";"="]%char.
  change (chars dq) with [dquote].
  change (chars "]") with ["]"%char].
  cbn [app].
  rewrite xlex_id_pred by (try exact Hq; cbn [List.length]; rewrite length_app; cbn [List.length]; lia).
  cbn -[xeval]. f_equal. induction layers as [|layer rest IH]; [reflexivity|].
  cbn [find]. rewrite IH. f_equal. cbn.
  destruct (get layer "id") as [v|]; cbn; [|reflexivity].
  rewrite orb_false_r, leq_chars. reflexivity.
Qed.

Lemma get_dict_set (e : element) k v k' :
  get (dict_set e k v) k' = if String.eqb k' k then Some v else get e k'.
Proof.
  induction e as [|[k0 v0] r IH]; cbn.
  - destruct (String.eqb k' k); reflexivity.
  - destruct (String.eqb k k0) eqn:E; cbn.
    + apply String.eqb_eq in E. subst k0. destruct (String.eqb k' k); reflexivity.
    + rewrite IH. destruct (String.eqb k' k0) eqn:E'; [|reflexivity].
      apply String.eqb_eq in E'. subst k0.
      destruct (String.eqb k' k) eqn:E''; [|reflexivity].
      apply String.eqb_eq in E''. subst k'. rewrite String.eqb_refl in E. discriminate.
Qed.

Lemma fold_left_ext_in {A B} (f g : A -> B -> A) (l : list B) (a : A) :
  (forall x y, In y l -> f x y = g x y) -> fold_left f l a = fold_left g l a.
Proof.
  revert a. induction l as [|y l IH]; intros a H; cbn; [reflexivity|].
  rewrite H by (left; reflexivity). apply IH. intros x z Hz. apply H. right. exact Hz.
Qed.

(** X18: [_build_style_string] ignores a presentation attribute whose
    name occurs anywhere in the [style] text, even as part of another
    property's name: [stroke] is dropped next to ['stroke-width:2']. *)
Theorem build_style_ignores_mentioned :
  forall (e : element) attr v,
    In attr svg_style_attrs ->
    Renderer.py_in (chars attr) (chars (get_default e "style" EmptyString)) = true ->
    _build_style_string (dict_set e attr v) = _build_style_string e.
Proof.
  intros e attr v Hin Hpy. unfold _build_style_string.
  assert (Hs : get_default (dict_set e attr v) "style" EmptyString = get_default e "style" EmptyString).
  { unfold get_default. rewrite get_dict_set.
    destruct (String.eqb "style" attr) eqn:E; [|reflexivity].
    apply String.eqb_eq in E. subst attr. cbn in Hin. exfalso.
    repeat (destruct Hin as [Hin|Hin]; [discriminate Hin|]). exact Hin. }
  rewrite Hs. f_equal. apply fold_left_ext_in. intros parts a _.
  rewrite get_dict_set. destruct (String.eqb a attr) eqn:E.
  - apply String.eqb_eq in E. subst a. rewrite Hpy. cbn.
    destruct (get e attr); reflexivity.
  - reflexivity.
Qed.

Lemma build_style_ignores_mentioned_witness :
  In "stroke"%string svg_style_attrs
  /\ Renderer.py_in (chars "stroke") (chars (get_default [("style", "stroke-width:2")]%string "style" EmptyString)) = true
  /\ _build_style_string (dict_set [("style", "stroke-width:2")]%string "stroke" "red")
     = _build_style_string [("style", "stroke-width:2")]%string
  /\ _build_style_string [("style", "stroke-width:2"); ("stroke", "red")]%string = "stroke-width:2"%string.
Proof.
  split; [cbn; tauto|]. split; [reflexivity|]. split; [|reflexivity].
  apply build_style_ignores_mentioned; [cbn; tauto | reflexivity].
Defined.

Lemma layers_get_set d k v : layers_get (layers_set d k v) k = Some v.
Proof.
  induction d as [|[k' v'] r IH]; cbn.
  - rewrite String.eqb_refl. reflexivity.
  - destruct (String.eqb k k') eqn:E; cbn; rewrite E; [reflexivity | exact IH].
Qed.

Lemma get_or_create_add_to w n p q c :
  get_or_create w (Some n) = (w, p) ->
  get_or_create (add_to w q c) (Some n) = (add_to w q c, p).
Proof.
  unfold get_or_create. assert (Hl : layers (add_to w q c) = layers w) by (destruct q; reflexivity).
  rewrite Hl. destruct (SVGParser.nonempty n); [|intro H; inversion H; reflexivity].
  destruct (layers_get (layers w) n) as [k|]; intro H; [inversion H; reflexivity|].
  destruct (create_layer w n None) as [w' k] eqn:E. injection H as Hw Hp.
  unfold create_layer in E. injection E as Ew Ek. rewrite <- Ew in Hw.
  apply (f_equal (fun x => List.length (children x))) in Hw. cbn in Hw.
  rewrite length_app in Hw. cbn in Hw. lia.
Qed.

Lemma add_element_effect fs w el n p w' :
  get_or_create w (Some n) = (w, p) ->
  add_element_from_lxml fs w el (Some n) = Ok w' ->
  (copied el = false /\ w' = w)
  \/ (copied el = true /\ exists a, w' = add_to w p (WElem (svg_tag (node_local el)) a [])).
Proof.
  intros Hg. destruct el as [ns tag attrs cs]. unfold add_element_from_lxml, copied, node_local.
  destruct (String.eqb tag "path") eqn:Ep.
  - intro H. injection H as <-. right. split; [reflexivity|].
    apply String.eqb_eq in Ep. subst tag. unfold add_path. rewrite Hg. eexists. reflexivity.
  - destruct (String.eqb tag "rect") eqn:Er.
    + intro H.
      destruct (Draw.float_attr attrs "x"); bind_red H; [|discriminate].
      destruct (Draw.float_attr attrs "y"); bind_red H; [|discriminate].
      destruct (Draw.float_attr attrs "width"); bind_red H; [|discriminate].
      destruct (Draw.float_attr attrs "height"); bind_red H; [|discriminate]. injection H as <-. right. split; [reflexivity|].
      apply String.eqb_eq in Er. subst tag. unfold add_rect. rewrite Hg. eexists. reflexivity.
    + intro H. injection H as <-. left. split; reflexivity.
Qed.

Lemma add_elements_effect fs els w n p w' :
  get_or_create w (Some n) = (w, p) ->
  add_elements fs w els (Some n) = Ok w' ->
  exists kids, map wtag kids = map (fun m => svg_tag (node_local m)) (filter copied els)
          /\ w' = fold_left (fun w c => add_to w p c) kids w.
Proof.
  revert w. induction els as [|el els IH]; intros w Hg H.
  - injection H as <-. exists []. split; reflexivity.
  - cbn [add_elements] in H.
    destruct (add_element_from_lxml fs w el (Some n)) as [w1|err] eqn:E; [|discriminate].
    cbn in H. destruct (add_element_effect fs w el n p w1 Hg E) as [[Hc ->] | [Hc [a ->]]].
    + destruct (IH w Hg H) as (kids & Hk & ->). exists kids. cbn [filter]. rewrite Hc. auto.
    + destruct (IH _ (get_or_create_add_to w n p p _ Hg) H) as (kids & Hk & ->).
      exists (WElem (svg_tag (node_local el)) a [] :: kids). cbn [filter]. rewrite Hc.
      split; [cbn; f_equal; exact Hk | reflexivity].
Qed.

Lemma fold_add_root kids w :
  fold_left (fun w c => add_to w None c) kids w = mkSVGWriter (children w ++ kids) (layers w).
Proof.
  revert w. induction kids as [|c kids IH]; intro w; cbn.
  - rewrite app_nil_r. destruct w; reflexivity.
  - rewrite IH. cbn. rewrite <- app_assoc. reflexivity.
Qed.

Lemma nth_error_update_nth {A} k (f : A -> A) l :
  nth_error (update_nth k f l) k = option_map f (nth_error l k).
Proof. revert k. induction l as [|x l IH]; intros [|k]; cbn; auto. Qed.

Lemma update_nth_const_update {A} k (y : A) g l :
  update_nth k (fun _ => y) (update_nth k g l) = update_nth k (fun _ => y) l.
Proof. revert k. induction l as [|x l IH]; intros [|k]; cbn; auto. rewrite IH. reflexivity. Qed.

Lemma update_nth_const_id {A} k (x : A) l :
  nth_error l k = Some x -> update_nth k (fun _ => x) l = l.
Proof.
  revert k. induction l as [|z l IH]; intros [|k] H; cbn in *; try discriminate.
  - injection H as ->. reflexivity.
  - rewrite IH by exact H. reflexivity.
Qed.

Lemma fold_add_into kids w k t a cs :
  nth_error (children w) k = Some (WElem t a cs) ->
  fold_left (fun w c => add_to w (Some k) c) kids w
  = mkSVGWriter (update_nth k (fun _ => WElem t a (cs ++ kids)) (children w)) (layers w).
Proof.
  revert w cs. induction kids as [|c kids IH]; intros w cs H; cbn.
  - rewrite app_nil_r, update_nth_const_id by exact H. destruct w; reflexivity.
  - rewrite (IH _ (cs ++ [c])).
    + cbn. rewrite update_nth_const_update, <- app_assoc. reflexivity.
    + cbn. rewrite nth_error_update_nth, H. reflexivity.
Qed.

Lemma map_wtop_update_nth k y x l :
  nth_error l k = Some x -> wtop y = wtop x -> map wtop (update_nth k (fun _ => y) l) = map wtop l.
Proof.
  revert k. induction l as [|z l IH]; intros [|k] H Ht; cbn in *; try discriminate.
  - injection H as ->. rewrite Ht. reflexivity.
  - rewrite IH by assumption. reflexivity.
Qed.

Lemma nth_error_app_len {A} (l : list A) x : nth_error (l ++ [x]) (List.length l) = Some x.
Proof. induction l; cbn; auto. Qed.

(** X19: [copy_layer_to_new_svg] creates one layer group and copies the
    paths and rects in order, skipping other elements; with an empty layer
    name the copies go to the root, after the empty group. *)
Theorem copy_layer_structure :
  forall fs els layer_name w,
    copy_layer_to_new_svg fs els layer_name = Ok w ->
    exists kids,
      map wtag kids = map (fun m => svg_tag (node_local m)) (filter copied els)
      /\ layers w = [(layer_name, 0%nat)]
      /\ (SVGParser.nonempty layer_name = true ->
          children w = [WElem (svg_tag "g") (layer_attrs layer_name) kids])
      /\ (SVGParser.nonempty layer_name = false ->
          children w = WElem (svg_tag "g") (layer_attrs layer_name) [] :: kids).
Proof.
  intros fs els layer_name w H. unfold copy_layer_to_new_svg in H. cbn in H.
  destruct (SVGParser.nonempty layer_name) eqn:Ne.
  - assert (Hg : get_or_create (mkSVGWriter [WElem (svg_tag "g") (layer_attrs layer_name) []]
                                  [(layer_name, 0%nat)]) (Some layer_name)
                 = (mkSVGWriter [WElem (svg_tag "g") (layer_attrs layer_name) []]
                                  [(layer_name, 0%nat)], Some 0%nat)).
    { unfold get_or_create. rewrite Ne. cbn. rewrite String.eqb_refl. reflexivity. }
    destruct (add_elements_effect fs els _ _ _ _ Hg H) as (kids & Hk & ->).
    exists kids. erewrite fold_add_into by reflexivity. cbn.
    split; [exact Hk|]. split; [reflexivity|]. split; [reflexivity | discriminate].
  - assert (Hg : get_or_create (mkSVGWriter [WElem (svg_tag "g") (layer_attrs layer_name) []]
                                  [(layer_name, 0%nat)]) (Some layer_name)
                 = (mkSVGWriter [WElem (svg_tag "g") (layer_attrs layer_name) []]
                                  [(layer_name, 0%nat)], None)).
    { unfold get_or_create. rewrite Ne. reflexivity. }
    destruct (add_elements_effect fs els _ _ _ _ Hg H) as (kids & Hk & ->).
    exists kids. rewrite fold_add_root. cbn.
    split; [exact Hk|]. split; [reflexivity|]. split; [discriminate | reflexivity].
Qed.

Lemma export_layers_tops fs extract names :
  forall w0 w,
    Forall (fun n => SVGParser.nonempty n = true) names ->
    export_layers fs w0 extract names = Ok w ->
    map wtop (children w)
    = map wtop (children w0)
      ++ map (fun n => (svg_tag "g", layer_attrs n))
             (filter (fun n => match extract n with Ok (_ :: _) => true | _ => false end) names).
Proof.
  induction names as [|n names IH]; intros w0 w Hne H.
  - injection H as <-. rewrite app_nil_r. reflexivity.
  - inversion Hne as [|n' names' Hn Hrest]; subst n' names'.
    cbn [export_layers] in H. cbn [filter].
    destruct (extract n) as [els|err]; bind_red H; [|discriminate].
    destruct els as [|el els].
    + bind_red H. exact (IH w0 w Hrest H).
    + destruct (create_layer w0 n None) as [wc pos] eqn:Ec. cbv beta iota in H.
      destruct (add_elements fs wc (el :: els) (Some n)) as [w1|err] eqn:Ea; bind_red H; [|discriminate].
      rewrite (IH w1 w Hrest H).
      unfold create_layer in Ec. injection Ec as <- <-.
      set (G := WElem (svg_tag "g") (layer_attrs n) []).
      assert (Hg : get_or_create (mkSVGWriter (children w0 ++ [G]) (layers_set (layers w0) n (List.length (children w0)))) (Some n)
                   = (mkSVGWriter (children w0 ++ [G]) (layers_set (layers w0) n (List.length (children w0))), Some (List.length (children w0)))).
      { unfold get_or_create. rewrite Hn. cbn. rewrite layers_get_set. reflexivity. }
      destruct (add_elements_effect fs _ _ _ _ _ Hg Ea) as (kids & _ & ->).
      rewrite (fold_add_into kids _ _ (svg_tag "g") (layer_attrs n) []).
      * cbn. rewrite (map_wtop_update_nth _ _ G).
        -- rewrite map_app, <- app_assoc. reflexivity.
        -- apply nth_error_app_len.
        -- reflexivity.
      * apply nth_error_app_len.
Qed.

(** X20: [export_layers_to_svg] adds one layer group per requested
    non-empty name that has elements, in request order; a name requested
    twice gives two groups with the same id. *)
Theorem export_layers_groups :
  forall fs extract layer_names w,
    Forall (fun n => SVGParser.nonempty n = true) layer_names ->
    export_layers_to_svg fs extract layer_names = Ok w ->
    map wtop (children w)
    = map (fun n => (svg_tag "g", layer_attrs n))
          (filter (fun n => match extract n with Ok (_ :: _) => true | _ => false end) layer_names).
Proof.
  intros fs extract layer_names w Hne H. exact (export_layers_tops fs extract layer_names _ w Hne H).
Qed.

(** ** Witnesses *)


Lemma parse_dimension_units_witness : _parse_dimension ("210" ++ "mm") = Ok 210%float.
Proof. apply parse_dimension_units; [cbn; tauto | vm_compute; reflexivity]. Defined.

Lemma get_color_hex_witness :
  get_color (str ["#"; "f"; "f"; "8"; "0"; "0"; "0"]%char)
    = Ok (Some (div255 (16 * 15 + 15), div255 (16 * 8 + 0), div255 (16 * 0 + 0)))
  /\ get_color (str ["#"; "f"; "f"; "8"]%char)
    = Ok (Some (div255 (17 * 15), div255 (17 * 15), div255 (17 * 8))).
Proof. apply get_color_hex; reflexivity. Defined.

Lemma get_color_signed_hex_witness :
  get_color (str ["#"; "-"; "f"; "-"; "8"; "-"; "0"]%char)
    = Ok (Some (div255 (- 15), div255 (- 8), div255 (- 0))).
Proof. exact (get_color_signed_hex "f" "8" "0" 15 8 0 eq_refl eq_refl eq_refl). Defined.

Lemma get_color_none_forms_witness :
  get_color "NONE" = Ok None
  /\ get_color " none" = Err (ValueError "Unsupported color format: none").
Proof.
  split.
  - apply (proj1 (get_color_none_forms "NONE")). vm_compute. reflexivity.
  - apply (proj2 (get_color_none_forms " none")); [vm_compute; reflexivity|].
    vm_compute. discriminate.
Defined.

Lemma get_color_named_witness : get_color " Red " = Ok (Some (div255 255, div255 0, div255 0)).
Proof.
  apply (get_color_named " Red " "red"); [do 2 right; left; reflexivity | vm_compute; reflexivity].
Defined.

Lemma get_color_rgb_witness :
  get_color (str (chars "rgb(" ++ ["3"; "0"; "0"]%char ++ ","%char :: ["0"]%char ++ ","%char
                   :: ["1"; "2"]%char ++ ")"%char :: [" "; "x"]%char))
  = Ok (Some (div255 (decimal_value ["3"; "0"; "0"]%char), div255 (decimal_value ["0"]%char),
              div255 (decimal_value ["1"; "2"]%char))).
Proof. apply get_color_rgb; try discriminate; try (cbn; lia); repeat constructor. Defined.

Lemma later_declaration_wins_witness :
  dict_get (parse_style [("style", "fill:red;fill: blue ;stroke:none;")]%string) (str (strip (chars "fill")))
  = Some (str (strip (chars " blue "))).
Proof.
  apply (later_declaration_wins _ (chars "fill:red") _ _ (chars ";stroke:none;"));
    [reflexivity | cbn; intuition discriminate .. |].
  right. eexists. split; [reflexivity|].
  intros d Hd. vm_compute in Hd. repeat (destruct Hd as [<- | Hd]; [vm_compute; congruence|]). destruct Hd.
Defined.

Lemma render_path_unpainted_witness :
  exists ops, render_path true unpainted_path = Ok ops
    /\ ops = map PathOp (path_prims (get_default unpainted_path "d" EmptyString)).
Proof.
  destruct (render_path true unpainted_path) as [ops|err] eqn:E; [|vm_compute in E; discriminate].
  exists ops. split; [reflexivity|].
  exact (render_path_unpainted unpainted_path ops ltac:(vm_compute; reflexivity)
           ltac:(vm_compute; reflexivity) E).
Defined.

Lemma render_path_paint_order_witness :
  exists ops, render_path true painted_path = Ok ops
    /\ exists fill stroke,
         ops = map PathOp (path_prims (get_default painted_path "d" EmptyString)) ++ fill ++ stroke.
Proof.
  destruct (render_path true painted_path) as [ops|err] eqn:E; [|vm_compute in E; discriminate].
  exists ops. split; [reflexivity|].
  destruct (render_path_paint_order painted_path ops E ltac:(vm_compute; reflexivity))
    as (fill & stroke & Hops & _).
  exists fill, stroke. exact Hops.
Defined.

Lemma render_rect_ops_witness :
  (exists ops, render_rect true sample_rect = Ok ops
     /\ exists x y width height rest, ops = Rectangle x y width height :: rest)
  /\ exists msg, render_rect true [("x", "1mm")]%string = Err (ValueError msg).
Proof.
  split.
  - destruct (render_rect true sample_rect) as [ops|err] eqn:E; [|vm_compute in E; discriminate].
    exists ops. split; [reflexivity|].
    destruct (proj1 render_rect_ops sample_rect ops E) as (x & y & w & h & rest & Hops & _).
    exists x, y, w, h, rest. exact Hops.
  - apply (proj2 render_rect_ops _ "x"%string "1mm"%string); [left; reflexivity | reflexivity | vm_compute; reflexivity].
Defined.

Lemma render_elements_compose_witness :
  render_each [Node None "circle" [] []] = render_each []
  /\ exists rest, render_elements false [] = Ok (setup_surface ++ rest).
Proof.
  split.
  - apply (proj1 (proj2 render_elements_compose)); discriminate.
  - destruct (render_elements false []) as [ops|err] eqn:E; [|vm_compute in E; discriminate].
    destruct (proj2 (proj2 (proj2 render_elements_compose)) [] ops E) as (rest & -> & _).
    exists rest. reflexivity.
Defined.

Lemma extract_elements_default_witness :
  In (Node (Some svg_uri) "path" [("d", "M0 0")%string] []) (descendants sample_layer)
  /\ extract_elements svg_uri sample_layer None
     = [Node (Some svg_uri) "path" [("d", "M0 0")%string] []; Node (Some svg_uri) "rect" [] []].
Proof.
  split.
  - destruct (proj2 (proj2 (extract_elements_default svg_uri sample_layer))
              (Some svg_uri) "g"%string [] 
              [Node (Some svg_uri) "rect" [] [];
               Node (Some svg_uri) "g" [] [Node (Some svg_uri) "path" [("d", "M0 0")%string] []]]
              (Node (Some svg_uri) "g" [] [Node (Some svg_uri) "path" [("d", "M0 0")%string] []])
              (Node (Some svg_uri) "path" [("d", "M0 0")%string] [])
              ltac:(right; left; reflexivity)) as [_ Hd].
    exact (Hd ltac:(left; reflexivity)).
  - reflexivity.
Defined.

Lemma get_layer_by_id_plain_witness :
  get_layer_by_id two_layers "layer2"
  = Ok (find (fun layer => match get layer "id" with
                           | Some v => String.eqb v "layer2"
                           | None => false end) two_layers).
Proof.
  apply get_layer_by_id_plain; [cbn; intuition discriminate | repeat constructor].
Defined.

Lemma copy_layer_structure_witness :
  exists w, copy_layer_to_new_svg (fun _ => "0"%string) sample_nodes "Layer A" = Ok w
    /\ exists kids, map wtag kids = [svg_tag "path"; svg_tag "rect"]%string.
Proof.
  destruct (copy_layer_to_new_svg (fun _ => "0"%string) sample_nodes "Layer A") as [w|err] eqn:E;
    [|vm_compute in E; discriminate].
  exists w. split; [reflexivity|].
  destruct (copy_layer_structure _ _ _ _ E) as (kids & Hk & _). exists kids. exact Hk.
Defined.

Lemma export_layers_groups_witness :
  exists w, export_layers_to_svg (fun _ => "0"%string)
              (fun n => if String.eqb n "A" then Ok sample_nodes else Ok [])
              ["A"; "B"; "A"]%string = Ok w
    /\ map wtop (children w) = [(svg_tag "g", layer_attrs "A"); (svg_tag "g", layer_attrs "A")].
Proof.
  destruct (export_layers_to_svg (fun _ => "0"%string)
              (fun n => if String.eqb n "A" then Ok sample_nodes else Ok [])
              ["A"; "B"; "A"]%string) as [w|err] eqn:E; [|vm_compute in E; discriminate].
  exists w. split; [reflexivity|].
  rewrite (export_layers_groups _ _ ["A"; "B"; "A"]%string w ltac:(repeat constructor) E).
  reflexivity.
Defined.
